(** * convert_to_webp_and_thumbs: per-file conversion pipeline and run aggregator

    A shallow embedding of [convert_to_webp_and_thumbs.py]:
    - [process_single_file] (skip check, animated / static encode policy,
      thumbnail generation, per-file statistics),
    - [process_file_task] (the worker wrapper turning exceptions into a
      failure tuple),
    - [format_file_size], the result loop and the summary of [main],
    - [gather_image_files] (which entries of the input folder are images),
    - [parse_env_value] and [load_config] (settings file, environment
      overrides, required keys, defaults).

    How the program is modelled:
    - Pillow is an interface ([Codec]): orientation, seek, convert, resize
      and the WebP writer are functions that return a value or raise.  What
      the pipeline asks of the writer is kept as the list of save calls.
    - The file system is a finite map from path names to files (size,
      modification time, what [Image.open] makes of the bytes).
    - Python exceptions are values of an error monad over that world;
      [try]/[except] are handlers.
    - Python floats are binary64 primitive floats, ints are [Z]; byte
      counts are converted exactly (they stay far below [2^53]).
    - The process pool hands [main] one future per listed file; a future
      either returns the tuple of [process_file_task] or raises.  Tasks are
      taken as atomic, in completion order.
    - The configuration is a finite map from keys to JSON-like values;
      [json.loads], the environment and the parsed settings file are
      inputs.  Texts are ASCII.
    - Left out: the logging handlers ([setup_logging]), the creation of
      the output folders and the progress bar. *)

From Stdlib Require Import ZArith Floats Uint63 Ascii String DecimalString List
  Permutation Lia.
From Stdlib Require Import DecimalZ DecimalN DecimalPos.
From stdpp Require Import gmap strings list.

Import ListNotations.
Open Scope string_scope.
Open Scope list_scope.

(** ** Python numbers *)

Module Py.

(** A Python number as the script produces them: an [int] or a [float]. *)
Inductive num :=
| PyInt (z : Z)
| PyFloat (f : float).

(** [float(n)], for [|n| < 2^63].  Exact below [2^53]; the script only
    divides byte counts, and on that range Python's correctly rounded
    [int / int] is the binary64 quotient of the two conversions. *)
Definition float_of_int (n : Z) : float :=
  if (n <? 0)%Z
  then PrimFloat.opp (PrimFloat.of_uint63 (Uint63.of_Z (- n)))
  else PrimFloat.of_uint63 (Uint63.of_Z n).

(** [a / b] on two ints with [b <> 0] (true division). *)
Definition truediv (a b : Z) : float :=
  PrimFloat.div (float_of_int a) (float_of_int b).

(** [(total / original) * 100 if original > 0 else 0] *)
Definition percent_or_zero (total original : Z) : num :=
  if (0 <? original)%Z
  then PyFloat (PrimFloat.mul (truediv total original) 100%float)
  else PyInt 0.

(** [a / b] as Python evaluates it on two ints. *)
Definition div_ints (a b : Z) : float + string :=
  if (b =? 0)%Z then inr "division by zero" else inl (truediv a b).

(** Decimal digits of a natural number. *)
Definition digits (n : Z) : string := NilZero.string_of_uint (N.to_uint (Z.to_N n)).

Fixpoint zeros (k : nat) : string :=
  match k with
  | O => EmptyString
  | S k' => String "0"%char (zeros k')
  end.

(** [m * 2^e * 10^d] rounded to the nearest integer, ties to even: the
    digits [format] prints for the binary64 value [m * 2^e]. *)
Definition scaled_round (m : positive) (e : Z) (d : nat) : Z :=
  let p10 := (10 ^ Z.of_nat d)%Z in
  if (0 <=? e)%Z then (Z.pos m * 2 ^ e * p10)%Z
  else
    let num := (Z.pos m * p10)%Z in
    let den := (2 ^ (- e))%Z in
    let q := (num / den)%Z in
    let r := (num mod den)%Z in
    if (2 * r <? den)%Z then q
    else if (den <? 2 * r)%Z then (q + 1)%Z
    else if Z.even q then q else (q + 1)%Z.

(** The text of a non-negative count [t] of [10^-d] units, [d >= 1]. *)
Definition fixed_text (t : Z) (d : nat) : string :=
  let p10 := (10 ^ Z.of_nat d)%Z in
  let frac := digits (t mod p10) in
  digits (t / p10) +:+ "." +:+ zeros (d - String.length frac) +:+ frac.

(** [f"{x:.df}"] for [d >= 1]. *)
Definition format_f (d : nat) (x : num) : string :=
  match x with
  | PyInt z =>
      (if (z <? 0)%Z then "-" else "") +:+ digits (Z.abs z) +:+ "." +:+ zeros d
  | PyFloat f =>
      match Prim2SF f with
      | S754_zero s => (if s then "-" else "") +:+ "0." +:+ zeros d
      | S754_infinity s => (if s then "-" else "") +:+ "inf"
      | S754_nan => "nan"
      | S754_finite s m e =>
          (if s then "-" else "") +:+ fixed_text (scaled_round m e d) d
      end
  end.

End Py.

(** ** Path names *)

Module Path.

Definition is_sep (c : ascii) : bool := Ascii.eqb c "/"%char.

Fixpoint has_sep (s : string) : bool :=
  match s with
  | EmptyString => false
  | String c r => is_sep c || has_sep r
  end.

(** [os.path.basename(p)] / [Path(p).name]: what follows the last
    separator. *)
Fixpoint basename (s : string) : string :=
  match s with
  | EmptyString => EmptyString
  | String c r =>
      if has_sep r then basename r
      else if is_sep c then r else s
  end.

(** [s.rfind(".")] *)
Fixpoint rfind_dot (s : string) : option nat :=
  match s with
  | EmptyString => None
  | String c r =>
      match rfind_dot r with
      | Some i => Some (S i)
      | None => if Ascii.eqb c "."%char then Some O else None
      end
  end.

(** [Path(p).stem]: the name without its last suffix; a leading or a
    trailing dot is not a suffix separator. *)
Definition stem (p : string) : string :=
  let name := basename p in
  match rfind_dot name with
  | Some i =>
      if (0 <? i)%nat && (i <? String.length name - 1)%nat
      then String.substring 0 i name
      else name
  | None => name
  end.

(** [Path(folder) / file], for a folder name without trailing separator. *)
Definition join (folder file : string) : string :=
  folder +:+ "/" +:+ file.

End Path.

(** [s.upper()] on ASCII text. *)
Definition upper_ascii (c : ascii) : ascii :=
  let n := nat_of_ascii c in
  if (97 <=? n)%nat && (n <=? 122)%nat then ascii_of_nat (n - 32) else c.

Fixpoint upper (s : string) : string :=
  match s with
  | EmptyString => EmptyString
  | String c r => String (upper_ascii c) (upper r)
  end.

(** ** Configuration *)

(** The dictionary returned by [load_config]: every key is present (the
    three folders are required, the others are defaulted), so the
    [config.get(key, default)] calls of the pipeline read the stored value. *)
Record Config := {
  input_folder : string;
  output_webp_folder : string;
  output_thumb_folder : string;
  quality : Z;
  method : Z;
  thumb_size : Z * Z;
  max_workers : Z;
  preserve_exif : bool;
  preserve_icc : bool;
  preserve_alpha : bool;
  force_lossless_for_alpha : bool;
  skip_existing : bool;
  log_file : string;
  failed_list_file : string
}.

(** ** Exceptions *)

Inductive exn_class :=
| UnidentifiedImageError
| FileNotFoundError
| TypeError
| RuntimeError
| IndexError
| EOFError
| OSError
| ValueError
| ZeroDivisionError
| BrokenProcessPool.

Global Instance exn_class_eq_dec : EqDecision exn_class.
Proof. solve_decision. Defined.

(** An exception: its class and [str(e)]. *)
Record exn := Exn { exn_cls : exn_class; exn_str : string }.

Inductive result (A : Type) :=
| Ok (a : A)
| Raise (e : exn).
Arguments Ok {A} a.
Arguments Raise {A} e.

(** ** Images, files and the codec *)

Definition bytes := string.

(** What the pipeline reads of a Pillow image: attributes, the entries of
    [img.info] it looks up, and the pixel data as an opaque handle.  The
    attributes [is_animated] and [n_frames] exist on some image classes
    only, hence the options read by [getattr]. *)
Record image := {
  img_format : option string;
  img_is_animated : option bool;
  img_n_frames : option nat;
  img_mode : string;
  info_exif : option bytes;
  info_icc_profile : option bytes;
  info_transparency : bool;
  info_duration : option Z;
  info_loop : option Z;
  img_pixels : N
}.

(** A file: what [stat] reports and what [Image.open] makes of its bytes.
    Modification times are compared only, so a time is an integer count of
    clock ticks. *)
Record file := {
  st_size : Z;
  st_mtime : Z;
  decoded : result image
}.

(** Keyword arguments of a still [save(path, "WEBP", **kw)]; [None] is an
    absent key. *)
Record save_kwargs := {
  kw_lossless : option bool;
  kw_quality : option Z;
  kw_method : option Z;
  kw_icc_profile : option bytes;
  kw_exif : option bytes
}.

Inductive save_call :=
| SaveStill (path : string) (im : image) (kw : save_kwargs)
| SaveAll (path : string) (first : image) (append_images : list image)
          (duration : list Z) (loop : Z) (sa_quality sa_method : Z).

Definition save_path (c : save_call) : string :=
  match c with
  | SaveStill p _ _ => p
  | SaveAll p _ _ _ _ _ _ => p
  end.

(** The Pillow operations the pipeline calls.  [encode] is the WebP writer:
    the file it produces for a save call, or the exception it raises. *)
Class Codec := {
  exif_transpose : image -> result image;
  seek : image -> nat -> result image;
  convert : image -> string -> result image;
  thumbnail : image -> Z * Z -> result image;
  encode : save_call -> result file
}.

(** ** The world and the monad of the pipeline *)

(** The file system, and the save calls issued so far (oldest first). *)
Record world := World {
  fs : gmap string file;
  saves : list save_call
}.

Definition M (A : Type) : Type := world -> result A * world.

Global Instance M_ret : MRet M := fun A a w => (Ok a, w).
Global Instance M_bind : MBind M := fun A B k m w =>
  match m w with
  | (Ok a, w') => k a w'
  | (Raise e, w') => (Raise e, w')
  end.

Definition raise {A} (e : exn) : M A := fun w => (Raise e, w).

Definition lift {A} (r : result A) : M A := fun w => (r, w).

(** [try: m  except Exception as e: h e] *)
Definition try_except {A} (m : M A) (h : exn -> M A) : M A := fun w =>
  match m w with
  | (Ok a, w') => (Ok a, w')
  | (Raise e, w') => h e w'
  end.

(** [try: m  except cls as e: h e] *)
Definition try_except_cls {A} (cls : exn_class) (m : M A) (h : exn -> M A) : M A :=
  try_except m (fun e => if decide (exn_cls e = cls) then h e else raise e).

Definition file_not_found (p : string) : exn :=
  Exn FileNotFoundError ("[Errno 2] No such file or directory: '" +:+ p +:+ "'").

(** [Path(p).exists()] *)
Definition path_exists (p : string) : M bool := fun w =>
  (Ok (bool_decide (is_Some (fs w !! p))), w).

(** [Path(p).stat()] *)
Definition path_stat (p : string) : M file := fun w =>
  match fs w !! p with
  | Some f => (Ok f, w)
  | None => (Raise (file_not_found p), w)
  end.

(** [Image.open(p)] *)
Definition image_open (p : string) : M image := fun w =>
  match fs w !! p with
  | Some f => (decoded f, w)
  | None => (Raise (file_not_found p), w)
  end.

(** [im.save(path, ...)]: the call is recorded; when the writer succeeds
    the file appears at the path. *)
Definition save `{Codec} (c : save_call) : M unit := fun w =>
  let w1 := World (fs w) (saves w ++ [c]) in
  match encode c with
  | Ok f => (Ok tt, World (<[save_path c := f]> (fs w1)) (saves w1))
  | Raise e => (Raise e, w1)
  end.

(** ** Per-file statistics *)

(** The [stats] dictionary of [process_single_file].  The key
    ["thumb_size"] is the field [thumb_size_]: [thumb_size] is already the
    configuration key of the thumbnail dimensions. *)
Record Stats := {
  original_size : Z;
  webp_size : Z;
  thumb_size_ : Z;
  total_size : Z;
  compression_ratio : Py.num
}.

Definition init_stats (original : Z) : Stats :=
  {| original_size := original; webp_size := 0; thumb_size_ := 0;
     total_size := 0; compression_ratio := Py.PyFloat 0%float |}.

Definition set_webp_size (s : Stats) (n : Z) : Stats :=
  {| original_size := original_size s; webp_size := n;
     thumb_size_ := thumb_size_ s; total_size := total_size s;
     compression_ratio := compression_ratio s |}.

Definition set_thumb_size (s : Stats) (n : Z) : Stats :=
  {| original_size := original_size s; webp_size := webp_size s;
     thumb_size_ := n; total_size := total_size s;
     compression_ratio := compression_ratio s |}.

(** [stats["total_size"] = total] followed by
    [stats["compression_ratio"] =
       (stats["total_size"] / original_size) * 100 if original_size > 0 else 0] *)
Definition set_totals (s : Stats) (total original : Z) : Stats :=
  {| original_size := original_size s; webp_size := webp_size s;
     thumb_size_ := thumb_size_ s; total_size := total;
     compression_ratio := Py.percent_or_zero total original |}.

(** ** process_single_file *)

Section Pipeline.
Context `{Codec}.

(** Truth value of a metadata block: [None] and the empty bytes are false. *)
Definition truthy (b : option bytes) : bool :=
  match b with
  | Some EmptyString | None => false
  | Some _ => true
  end.

(** [save_kwargs["k"] = v] under [if v:] *)
Definition attach (b : option bytes) : option bytes :=
  if truthy b then b else None.

(** [img.mode in ("RGBA", "LA") or (img.mode == "P" and "transparency" in img.info)] *)
Definition has_alpha (img : image) : bool :=
  String.eqb (img_mode img) "RGBA" || String.eqb (img_mode img) "LA"
  || (String.eqb (img_mode img) "P" && info_transparency img).

(** [src_format in ("GIF", "WEBP")] *)
Definition animation_format (src_format : string) : bool :=
  String.eqb src_format "GIF" || String.eqb src_format "WEBP".

(** The frame loop of the animated branch, from index [i] for [n] rounds:
    [img.seek(i); frame = img.convert("RGBA"); frames.append(frame.copy());
     durations.append(img.info.get("duration", 100))].
    Returns the frames, the durations and the image as the last [seek]
    left it. *)
Fixpoint collect_frames (n i : nat) (img : image)
  : M (list image * list Z * image) :=
  match n with
  | O => mret ([], [], img)
  | S n' =>
      img_i ← lift (seek img i);
      frame ← lift (convert img_i "RGBA");
      let d := default 100%Z (info_duration img_i) in
      '(frames, durations, img_end) ← collect_frames n' (S i) img_i;
      mret (frame :: frames, d :: durations, img_end)
  end.

(** The body of [with Image.open(src_path) as img:] *)
Definition encode_main (src_path out_webp : string) (config : Config) : M unit :=
  img0 ← image_open src_path;
  img ← lift (exif_transpose img0);
  let src_format := upper (default "" (img_format img)) in
  let is_animated := default false (img_is_animated img) in
  let exif_bytes := if preserve_exif config then info_exif img else None in
  let icc_profile := if preserve_icc config then info_icc_profile img else None in
  if is_animated && animation_format src_format then
    let n_frames := default 1%nat (img_n_frames img) in
    '(frames, durations, img_end) ← collect_frames n_frames 0 img;
    match frames with
    | [] => raise (Exn IndexError "list index out of range")
    | first :: rest =>
        let call := SaveAll out_webp first rest durations
                      (default 0%Z (info_loop img_end))
                      (quality config) (method config) in
        try_except_cls TypeError (save call) (fun _ => save call)
    end
  else if has_alpha img && preserve_alpha config then
    out_img ← lift (convert img "RGBA");
    save (SaveStill out_webp out_img
            {| kw_lossless := Some true; kw_quality := None;
               kw_method := Some (method config);
               kw_icc_profile := attach icc_profile;
               kw_exif := attach exif_bytes |})
  else
    out_img ← lift (convert img "RGB");
    save (SaveStill out_webp out_img
            {| kw_lossless := None; kw_quality := Some (quality config);
               kw_method := Some (method config);
               kw_icc_profile := attach icc_profile;
               kw_exif := attach exif_bytes |}).

(** The [with Image.open(src_path) as img2:] block of the thumbnail step. *)
Definition encode_thumb (src_path out_thumb : string) (config : Config) : M unit :=
  img2_0 ← image_open src_path;
  img2 ← lift (exif_transpose img2_0);
  img2 ← (if default false (img_is_animated img2)
          then lift (seek img2 0) else mret img2);
  thumb ← lift (thumbnail img2 (thumb_size config));
  if has_alpha thumb && preserve_alpha config then
    thumb ← lift (convert thumb "RGBA");
    save (SaveStill out_thumb thumb
            {| kw_lossless := Some true; kw_quality := None;
               kw_method := Some (method config);
               kw_icc_profile := None; kw_exif := None |})
  else
    thumb ← lift (convert thumb "RGB");
    save (SaveStill out_thumb thumb
            {| kw_lossless := None; kw_quality := Some (quality config);
               kw_method := Some (method config);
               kw_icc_profile := None; kw_exif := None |}).

(** [p.exists() and p.stat().st_mtime >= src.stat().st_mtime] *)
Definition up_to_date (p src_path : string) : M bool :=
  e ← path_exists p;
  if e : bool then
    o ← path_stat p;
    s ← path_stat src_path;
    mret (st_mtime s <=? st_mtime o)%Z
  else mret false.

(** [if p.exists(): n = p.stat().st_size], else the previous value. *)
Definition size_if_exists (p : string) (previous : Z) : M Z :=
  e ← path_exists p;
  if e : bool then f ← path_stat p; mret (st_size f) else mret previous.

(** The skip block.  [Some r] is the early [return r]; [None] falls
    through to the conversion. *)
Definition skip_check (src_path out_webp out_thumb : string)
    (stats : Stats) (original : Z) : M (option (string * Stats)) :=
  current ← up_to_date out_webp src_path;
  if current : bool then
    w ← size_if_exists out_webp (webp_size stats);
    let stats := set_webp_size stats w in
    t ← size_if_exists out_thumb (thumb_size_ stats);
    let stats := set_thumb_size stats t in
    let stats := set_totals stats (webp_size stats + thumb_size_ stats) original in
    mret (Some ("Skip (webp exists and up-to-date): " +:+ Path.basename src_path,
                stats))
  else mret None.

(** The thumbnail [try] block.  [Some r] is the [return r] of the
    up-to-date thumbnail; [None] means the thumbnail was written and control
    leaves the block. *)
Definition thumb_step (src_path out_thumb : string) (config : Config)
    (stats : Stats) (original : Z) : M (option (string * Stats)) :=
  current ← (if skip_existing config then up_to_date out_thumb src_path
             else mret false);
  if current : bool then
    f ← path_stat out_thumb;
    let stats := set_thumb_size stats (st_size f) in
    let stats := set_totals stats (webp_size stats + thumb_size_ stats) original in
    mret (Some ("Converted (webp ready). Thumbnail skipped (up-to-date): "
                  +:+ Path.basename src_path, stats))
  else
    _ ← encode_thumb src_path out_thumb config;
    mret None.

(** [if config.get("skip_existing", True): try: ... except FileNotFoundError: pass] *)
Definition skip_stage (src_path out_webp out_thumb : string) (config : Config)
    (stats : Stats) (original : Z) : M (option (string * Stats)) :=
  if skip_existing config
  then try_except_cls FileNotFoundError
         (skip_check src_path out_webp out_thumb stats original)
         (fun _ => mret None)
  else mret None.

(** The thumbnail [try] with its [except Exception as e_thumb] handler,
    which returns the file as converted, the error text in the message. *)
Definition thumb_try (src_path out_webp_name out_thumb : string) (config : Config)
    (stats : Stats) (original : Z) : M (option (string * Stats)) :=
  try_except
    (thumb_step src_path out_thumb config stats original)
    (fun e_thumb =>
       let stats := set_totals stats (webp_size stats) original in
       mret (Some ("Converted: " +:+ Path.basename src_path +:+ " -> "
                     +:+ out_webp_name +:+ " (thumbnail failed: "
                     +:+ exn_str e_thumb +:+ ")", stats))).

(** The body of the outer [try]: main image, its size, thumbnail, final
    sizes. *)
Definition convert_stage (src_path out_webp out_thumb : string) (config : Config)
    (stats : Stats) (original : Z) : M (string * Stats) :=
  let out_webp_name := Path.stem src_path +:+ ".webp" in
  let out_thumb_name := Path.stem src_path +:+ "_thumb.webp" in
  _ ← encode_main src_path out_webp config;
  w ← size_if_exists out_webp (webp_size stats);
  let stats := set_webp_size stats w in
  early ← thumb_try src_path out_webp_name out_thumb config stats original;
  match early with
  | Some r => mret r
  | None =>
      t ← size_if_exists out_thumb (thumb_size_ stats);
      let stats := set_thumb_size stats t in
      let stats := set_totals stats (webp_size stats + thumb_size_ stats) original in
      mret ("Converted: " +:+ Path.basename src_path +:+ " -> " +:+ out_webp_name
              +:+ " | Thumb: " +:+ out_thumb_name, stats)
  end.

(** [out_webp] and [out_thumb] of a source file. *)
Definition out_webp_of (src_path : string) (config : Config) : string :=
  Path.join (output_webp_folder config) (Path.stem src_path +:+ ".webp").

Definition out_thumb_of (src_path : string) (config : Config) : string :=
  Path.join (output_thumb_folder config) (Path.stem src_path +:+ "_thumb.webp").

Definition process_single_file (src_path : string) (config : Config)
  : M (string * Stats) :=
  let out_webp := out_webp_of src_path config in
  let out_thumb := out_thumb_of src_path config in
  src_stat ← path_stat src_path;
  let original := st_size src_stat in
  let stats := init_stats original in
  skipped ← skip_stage src_path out_webp out_thumb config stats original;
  match skipped with
  | Some r => mret r
  | None =>
      try_except_cls UnidentifiedImageError
        (convert_stage src_path out_webp out_thumb config stats original)
        (fun _ => raise (Exn RuntimeError
                           ("Skipped (not an image or corrupted): " +:+ src_path)))
  end.

End Pipeline.

(** ** process_file_task *)

(** The tuple a worker returns: [(filename, ok, message, stats)].  The
    failure tuple carries the empty dictionary, [None] here. *)
Record Outcome := {
  out_filename : string;
  out_ok : bool;
  out_message : string;
  out_stats : option Stats
}.

Definition process_file_task `{Codec} (src_path : string) (config : Config)
  : world -> Outcome * world := fun w =>
  match process_single_file src_path config w with
  | (Ok (msg, stats), w') =>
      ({| out_filename := Path.basename src_path; out_ok := true;
          out_message := msg; out_stats := Some stats |}, w')
  | (Raise e, w') =>
      ({| out_filename := Path.basename src_path; out_ok := false;
          out_message := exn_str e; out_stats := None |}, w')
  end.

(** ** format_file_size *)

Definition ge_1024 (x : Py.num) : bool :=
  match x with
  | Py.PyInt z => (1024 <=? z)%Z
  | Py.PyFloat f => PrimFloat.leb 1024%float f
  end.

(** [abs_size /= 1024.0] *)
Definition div_1024 (x : Py.num) : Py.num :=
  match x with
  | Py.PyInt z => Py.PyFloat (PrimFloat.div (Py.float_of_int z) 1024%float)
  | Py.PyFloat f => Py.PyFloat (PrimFloat.div f 1024%float)
  end.

(** [while abs_size >= 1024 and i < len(size_names) - 1], with
    [size_names[i]] the current unit and [larger] the units after it. *)
Fixpoint scale_size (abs_size : Py.num) (unit_name : string) (larger : list string)
  : Py.num * string :=
  match larger with
  | [] => (abs_size, unit_name)
  | next :: larger' =>
      if ge_1024 abs_size then scale_size (div_1024 abs_size) next larger'
      else (abs_size, unit_name)
  end.

Definition format_file_size (size_bytes : Z) : string :=
  if (size_bytes =? 0)%Z then "0 B"
  else
    let is_negative := (size_bytes <? 0)%Z in
    let '(abs_size, unit_name) :=
      scale_size (Py.PyInt (Z.abs size_bytes)) "B" ["KB"; "MB"; "GB"; "TB"] in
    (if is_negative then "-" else "") +:+ Py.format_f 1 abs_size
      +:+ " " +:+ unit_name.

(** ** main: the result loop *)

Inductive level := INFO | WARNING | ERROR.

(** What [fut.result()] does: return the worker's tuple, or raise (the
    worker process died, the result could not be transferred). *)
Inductive future_result :=
| Returned (o : Outcome)
| FutureRaised (e : exn).

(** The variables the loop of [main] updates, and the log records it emits
    (oldest first). *)
Record Totals := {
  failed : list (string * string);
  success_count : Z;
  total_original_size : Z;
  total_webp_size : Z;
  total_thumb_size : Z;
  log : list (level * string)
}.

Definition start_totals (log0 : list (level * string)) : Totals :=
  {| failed := []; success_count := 0; total_original_size := 0;
     total_webp_size := 0; total_thumb_size := 0; log := log0 |}.

Definition arrow : string := "â†’".

(** [f"{message} | Original: {orig_size} → WebP: {webp_size} + Thumb: {thumb_size} ({ratio:.1f}%)"] *)
Definition enhanced_msg (message : string) (stats : Stats) : string :=
  message +:+ " | Original: " +:+ format_file_size (original_size stats)
    +:+ " " +:+ arrow +:+ " WebP: " +:+ format_file_size (webp_size stats)
    +:+ " + Thumb: " +:+ format_file_size (thumb_size_ stats)
    +:+ " (" +:+ Py.format_f 1 (compression_ratio stats) +:+ "%)".

(** One round of [for fut in as_completed(future_to_path)], for the future
    submitted for [src]. *)
Definition fold_result (t : Totals) (src : string) (r : future_result) : Totals :=
  match r with
  | Returned o =>
      if out_ok o then
        match out_stats o with
        | Some stats =>
            {| failed := failed t;
               success_count := success_count t + 1;
               total_original_size := total_original_size t + original_size stats;
               total_webp_size := total_webp_size t + webp_size stats;
               total_thumb_size := total_thumb_size t + thumb_size_ stats;
               log := log t ++ [(INFO, enhanced_msg (out_message o) stats)] |}
        | None =>
            {| failed := failed t;
               success_count := success_count t + 1;
               total_original_size := total_original_size t;
               total_webp_size := total_webp_size t;
               total_thumb_size := total_thumb_size t;
               log := log t ++ [(INFO, out_message o)] |}
        end
      else
        {| failed := failed t ++ [(out_filename o, out_message o)];
           success_count := success_count t;
           total_original_size := total_original_size t;
           total_webp_size := total_webp_size t;
           total_thumb_size := total_thumb_size t;
           log := log t ++ [(WARNING, "[" +:+ out_filename o +:+ "] failed: "
                                        +:+ out_message o)] |}
  | FutureRaised e =>
      {| failed := failed t ++ [(Path.basename src, exn_str e)];
         success_count := success_count t;
         total_original_size := total_original_size t;
         total_webp_size := total_webp_size t;
         total_thumb_size := total_thumb_size t;
         log := log t ++ [(ERROR, "Task failed for " +:+ src +:+ ": "
                                    +:+ exn_str e)] |}
  end.

(** The whole loop, over the futures in completion order. *)
Definition drain (completed : list (string * future_result)) (t : Totals) : Totals :=
  fold_left (fun acc fr => fold_result acc (fst fr) (snd fr)) completed t.

(** ** main: the summary *)

(** Logging code that may raise: the records emitted so far are kept. *)
Definition W (A : Type) : Type :=
  list (level * string) -> result A * list (level * string).

Global Instance W_ret : MRet W := fun A a l => (Ok a, l).
Global Instance W_bind : MBind W := fun A B k m l =>
  match m l with
  | (Ok a, l') => k a l'
  | (Raise e, l') => (Raise e, l')
  end.

Definition info (msg : string) : W unit := fun l => (Ok tt, (l ++ [(INFO, msg)])%list).

Definition wraise {A} (e : exn) : W A := fun l => (Raise e, l).

(** [(a / b) * 100] on ints, raising on a zero divisor. *)
Definition percent_of (a b : Z) : W Py.num :=
  match Py.div_ints a b with
  | inl q => mret (Py.PyFloat (PrimFloat.mul q 100%float))
  | inr msg => wraise (Exn ZeroDivisionError msg)
  end.

Fixpoint repeat_char (c : ascii) (n : nat) : string :=
  match n with
  | O => EmptyString
  | S n' => String c (repeat_char c n')
  end.

(** ["{fn}\t{reason}\n"] for every failure, in order. *)
Fixpoint failed_lines (l : list (string * string)) : string :=
  match l with
  | [] => EmptyString
  | (fn, reason) :: l' =>
      fn +:+ String (ascii_of_nat 9) reason +:+ String (ascii_of_nat 10) (failed_lines l')
  end.

(** [total_output_size = total_webp_size + total_thumb_size] *)
Definition total_output_size (t : Totals) : Z :=
  (total_webp_size t + total_thumb_size t)%Z.

(** [(total_output_size / total_original_size * 100) if total_original_size > 0 else 0] *)
Definition overall_compression_ratio (t : Totals) : Py.num :=
  Py.percent_or_zero (total_output_size t) (total_original_size t).

(** [space_saved = total_original_size - total_output_size] *)
Definition space_saved (t : Totals) : Z :=
  (total_original_size t - total_output_size t)%Z.

(** Everything after the pool is closed.  [processing_time] is the wall
    clock difference [end_time - start_time].  Returns the failure list file
    (path and text) when one is written. *)
Definition summary (processing_time : float) (config : Config) (t : Totals)
  : W (option (string * string)) :=
  _ ← info (repeat_char "=" 60);
  _ ← info "CONVERSION SUMMARY";
  _ ← info (repeat_char "=" 60);
  _ ← info ("Files processed: " +:+ Py.digits (success_count t));
  _ ← info ("Files failed: " +:+ Py.digits (Z.of_nat (length (failed t))));
  _ ← info ("Processing time: " +:+ Py.format_f 1 (Py.PyFloat processing_time)
              +:+ " seconds");
  _ ← (if (0 <? success_count t)%Z then
         let n := Py.float_of_int (success_count t) in
         _ ← info ("Average time per file: "
                     +:+ Py.format_f 2 (Py.PyFloat (PrimFloat.div processing_time n))
                     +:+ " seconds");
         if PrimFloat.eqb processing_time 0%float
         then wraise (Exn ZeroDivisionError "float division by zero")
         else info ("Processing speed: "
                      +:+ Py.format_f 1 (Py.PyFloat
                            (PrimFloat.mul (PrimFloat.div n processing_time) 60%float))
                      +:+ " files/minute")
       else mret tt);
  _ ← info (repeat_char "-" 40);
  _ ← info "FILE SIZE STATISTICS";
  _ ← info (repeat_char "-" 40);
  _ ← info ("Original total size: " +:+ format_file_size (total_original_size t));
  _ ← info ("WebP total size: " +:+ format_file_size (total_webp_size t));
  _ ← info ("Thumbnails total size: " +:+ format_file_size (total_thumb_size t));
  _ ← info ("Output total size: " +:+ format_file_size (total_output_size t));
  _ ← (if (0 <? space_saved t)%Z then
         _ ← info ("Space saved: " +:+ format_file_size (space_saved t));
         savings_percent ← percent_of (space_saved t) (total_original_size t);
         info ("Space savings: " +:+ Py.format_f 1 savings_percent +:+ "%")
       else
         _ ← info ("Space used: " +:+ format_file_size (Z.abs (space_saved t)));
         usage_percent ← percent_of (Z.abs (space_saved t)) (total_original_size t);
         info ("Space increase: " +:+ Py.format_f 1 usage_percent +:+ "%"));
  _ ← info ("Overall compression ratio: "
              +:+ Py.format_f 1 (overall_compression_ratio t) +:+ "%");
  written ← (match failed t with
             | [] => mret None
             | _ :: _ =>
                 _ ← info ("Failed files list saved to: " +:+ failed_list_file config);
                 mret (Some (failed_list_file config, failed_lines (failed t)))
             end);
  _ ← info (repeat_char "=" 60);
  mret written.

(** ** main: the pool and the run *)

Section Run.
Context `{Codec}.

(** The future of [src].  Tasks are taken as atomic: each runs to the end on
    the file system the earlier ones left.  [crash src = Some e] stands for a
    future whose [result()] raises [e]. *)
Definition future_of (crash : string -> option exn) (config : Config)
    (src : string) : world -> future_result * world := fun w =>
  match crash src with
  | Some e => (FutureRaised e, w)
  | None => let '(o, w') := process_file_task src config w in (Returned o, w')
  end.

(** The futures of the listed files, in the order they complete. *)
Fixpoint run_pool (crash : string -> option exn) (config : Config)
    (completed : list string) (w : world)
  : list (string * future_result) * world :=
  match completed with
  | [] => ([], w)
  | src :: rest =>
      let '(r, w1) := future_of crash config src w in
      let '(rs, w2) := run_pool crash config rest w1 in
      ((src, r) :: rs, w2)
  end.

Definition start_log (config : Config) : list (level * string) :=
  [ (INFO, "Starting conversion.");
    (INFO, "Input: " +:+ input_folder config);
    (INFO, "Output WebP: " +:+ output_webp_folder config);
    (INFO, "Output Thumbs: " +:+ output_thumb_folder config) ].

(** [main], from the listing of the input folder on: [completed] is the
    list of image files in the order [as_completed] yields their futures.
    The result is what the summary returns or raises, the log, and the
    file system. *)
Definition main (config : Config) (completed : list string)
    (crash : string -> option exn) (processing_time : float) (w : world)
  : result (option (string * string)) * list (level * string) * world :=
  match completed with
  | [] => (Ok None, (start_log config ++ [(INFO, "No images found. Exiting.")])%list, w)
  | _ :: _ =>
      let '(results, w') := run_pool crash config completed w in
      let t := drain results (start_totals (start_log config)) in
      (summary processing_time config t (log t), w')
  end.

End Run.

(** ** A concrete codec and file system, for examples *)

Module Demo.

Definition config : Config :=
  {| input_folder := "in"; output_webp_folder := "webp";
     output_thumb_folder := "thumbs"; quality := 90; method := 6;
     thumb_size := (400, 400)%Z; max_workers := 2;
     preserve_exif := true; preserve_icc := true; preserve_alpha := true;
     force_lossless_for_alpha := true; skip_existing := true;
     log_file := "convert_images.log"; failed_list_file := "failed_files.txt" |}.

Definition still (mode : string) (pixels : N) : image :=
  {| img_format := Some "PNG"; img_is_animated := None; img_n_frames := None;
     img_mode := mode; info_exif := Some "Exif-bytes"; info_icc_profile := None;
     info_transparency := false; info_duration := None; info_loop := None;
     img_pixels := pixels |}.

Definition gif (frames : nat) (pixels : N) : image :=
  {| img_format := Some "gif"; img_is_animated := Some true;
     img_n_frames := Some frames; img_mode := "P"; info_exif := None;
     info_icc_profile := None; info_transparency := true;
     info_duration := Some 40%Z; info_loop := Some 3%Z; img_pixels := pixels |}.

Definition with_mode (img : image) (mode : string) : image :=
  {| img_format := img_format img; img_is_animated := img_is_animated img;
     img_n_frames := img_n_frames img; img_mode := mode;
     info_exif := info_exif img; info_icc_profile := info_icc_profile img;
     info_transparency := info_transparency img;
     info_duration := info_duration img; info_loop := info_loop img;
     img_pixels := img_pixels img |}.

(** Frame [i] of an animation shows for [40 + 10 * i] ticks. *)
Definition at_frame (img : image) (i : nat) : image :=
  {| img_format := img_format img; img_is_animated := img_is_animated img;
     img_n_frames := img_n_frames img; img_mode := img_mode img;
     info_exif := info_exif img; info_icc_profile := info_icc_profile img;
     info_transparency := info_transparency img;
     info_duration := Some (40 + 10 * Z.of_nat i)%Z; info_loop := info_loop img;
     img_pixels := (img_pixels img + N.of_nat i)%N |}.

Definition not_an_image : exn :=
  Exn UnidentifiedImageError "cannot identify image file 'in/bad.png'".

(** A writer that makes main images of 300 bytes and thumbnails of 50, at
    time 100; with [thumbs_fail] it refuses every thumbnail. *)
Definition codec (thumbs_fail : bool) : Codec :=
  {| exif_transpose img := Ok img;
     seek img i :=
       if (i <? default 1%nat (img_n_frames img))%nat then Ok (at_frame img i)
       else Raise (Exn EOFError "no more images in file");
     convert img mode := Ok (with_mode img mode);
     thumbnail img size :=
       if thumbs_fail then Raise (Exn ValueError "cannot resize") else Ok img;
     encode c :=
       match c with
       | SaveStill p im _ =>
           Ok {| st_size := if String.prefix "thumbs/" p then 50 else 300;
                 st_mtime := 100; decoded := Ok im |}
       | SaveAll p im _ _ _ _ _ =>
           Ok {| st_size := 300; st_mtime := 100; decoded := Ok im |}
       end |}.

Definition src_file (size mtime : Z) (r : result image) : file :=
  {| st_size := size; st_mtime := mtime; decoded := r |}.

(** [in/cat.png]: 1000 bytes, opaque, not converted yet.
    [in/logo.png]: with alpha.  [in/anim.gif]: three frames.
    [in/bad.png]: not an image.
    [in/old.png]: already converted, the main output is newer, and there
    is no thumbnail. *)
Definition files : gmap string file :=
  <["in/cat.png" := src_file 1000 10 (Ok (still "RGB" 1))]>
  (<["in/logo.png" := src_file 2000 10 (Ok (still "RGBA" 2))]>
  (<["in/anim.gif" := src_file 5000 10 (Ok (gif 3 30))]>
  (<["in/bad.png" := src_file 1000 10 (Raise not_an_image)]>
  (<["in/old.png" := src_file 4000 10 (Ok (still "RGB" 5))]>
  (<["webp/old.webp" := src_file 1200 20 (Ok (still "RGB" 5))]> ∅))))).

Definition w0 : world := World files [].

Definition no_crash (src : string) : option exn := None.

(** Three futures: a converted file, a rejected one, and a worker that
    died. *)
Definition converted : string * future_result :=
  ("in/a.png",
   Returned {| out_filename := "a.png"; out_ok := true;
               out_message := "Converted: a.png -> a.webp | Thumb: a_thumb.webp";
               out_stats := Some {| original_size := 1000; webp_size := 300;
                                    thumb_size_ := 50; total_size := 350;
                                    compression_ratio := Py.PyFloat 35%float |} |}).

Definition rejected : string * future_result :=
  ("in/b.png",
   Returned {| out_filename := "b.png"; out_ok := false;
               out_message := "Skipped (not an image or corrupted): in/b.png";
               out_stats := None |}).

(** The totals of a run that read 10000 bytes and wrote 4000, and of one
    that read 1000 bytes and wrote 1500. *)
Definition totals_saving : Totals :=
  {| failed := []; success_count := 4; total_original_size := 10000;
     total_webp_size := 3500; total_thumb_size := 500; log := [] |}.

Definition totals_growing : Totals :=
  {| failed := []; success_count := 1; total_original_size := 1000;
     total_webp_size := 1400; total_thumb_size := 100; log := [] |}.

Definition crashed : string * future_result :=
  ("in/c.png",
   FutureRaised (Exn BrokenProcessPool "A process in the process pool was terminated abruptly")).

End Demo.

(** The skip block, evaluated: it returns early exactly when the main
    output exists and is not older than the source, and it leaves the world
    as it is. *)
Definition main_is_current (src_path out_webp : string) (w : world) : bool :=
  match fs w !! src_path, fs w !! out_webp with
  | Some f, Some o => (st_mtime f <=? st_mtime o)%Z
  | _, _ => false
  end.

Definition skipped_stats (out_webp out_thumb : string) (original : Z) (w : world)
  : Stats :=
  let wsize := match fs w !! out_webp with Some o => st_size o | None => 0%Z end in
  let tsize := match fs w !! out_thumb with Some o => st_size o | None => 0%Z end in
  {| original_size := original; webp_size := wsize; thumb_size_ := tsize;
     total_size := wsize + tsize;
     compression_ratio := Py.percent_or_zero (wsize + tsize) original |}.


(** What every returned [stats] dictionary satisfies, for a source of
    [original] bytes. *)
Definition stats_consistent (original : Z) (s : Stats) : Prop :=
  original_size s = original /\
  total_size s = (webp_size s + thumb_size_ s)%Z /\
  compression_ratio s = Py.percent_or_zero (webp_size s + thumb_size_ s) original.

(** [frames_at i img sought converted]: starting from [img], the seeks to
    [i], [i+1], ... succeed and yield the images [sought], whose
    conversions to RGBA succeed and yield [converted]. *)
Inductive frames_at `{Codec} : nat -> image -> list image -> list image -> Prop :=
| frames_done i img : frames_at i img [] []
| frames_next i img fr c sought converted :
    seek img i = Ok fr ->
    convert fr "RGBA" = Ok c ->
    frames_at (S i) fr sought converted ->
    frames_at i img (fr :: sought) (c :: converted).

(** [img.info.get("duration", 100)] *)
Definition frame_duration (fr : image) : Z := default 100%Z (info_duration fr).

(** The keyword arguments of the two still encodes of the main image and of
    the two of the thumbnail. *)
Definition lossless_kwargs (config : Config) (icc exif : option bytes) : save_kwargs :=
  {| kw_lossless := Some true; kw_quality := None;
     kw_method := Some (method config);
     kw_icc_profile := icc; kw_exif := exif |}.

Definition lossy_kwargs (config : Config) (icc exif : option bytes) : save_kwargs :=
  {| kw_lossless := None; kw_quality := Some (quality config);
     kw_method := Some (method config);
     kw_icc_profile := icc; kw_exif := exif |}.

(** The save calls a [save c] leaves in the record when it stands under
    [try: ... except TypeError:] with the same call as fallback. *)
Definition attempts `{Codec} (c : save_call) : list save_call :=
  match encode c with
  | Ok _ => [c]
  | Raise e => if decide (exn_cls e = TypeError) then [c; c] else [c]
  end.

(** ** What one future adds to the counters of the loop *)

Definition success_of (r : future_result) : Z :=
  match r with
  | Returned o => if out_ok o then 1%Z else 0%Z
  | FutureRaised _ => 0%Z
  end.

(** The sizes a future adds to the totals, read through [project]. *)
Definition size_of (project : Stats -> Z) (r : future_result) : Z :=
  match r with
  | Returned o =>
      if out_ok o
      then match out_stats o with Some s => project s | None => 0%Z end
      else 0%Z
  | FutureRaised _ => 0%Z
  end.

(** The entry a future appends to [failed], if any. *)
Definition failure_of (fr : string * future_result) : list (string * string) :=
  match snd fr with
  | Returned o => if out_ok o then [] else [(out_filename o, out_message o)]
  | FutureRaised e => [(Path.basename (fst fr), exn_str e)]
  end.

Definition zsum {A} (d : A -> Z) (l : list A) : Z :=
  fold_right (fun x acc => (d x + acc)%Z) 0%Z l.

(** What the thumbnail block may have added to the record of save calls. *)
Definition thumbnail_calls_ok (cfg : Config) (out : string) (w : world)
    (run : result unit * world) : Prop :=
  exists calls,
    saves (snd run) = saves w ++ calls /\
    (fst run = Ok tt -> exists c, calls = [c]) /\
    forall c, In c calls ->
      exists thumb kw,
        c = SaveStill out thumb kw /\
        kw_exif kw = None /\ kw_icc_profile kw = None /\
        kw_method kw = Some (method cfg) /\
        ((kw_lossless kw = Some true /\ kw_quality kw = None) \/
         (kw_lossless kw = None /\ kw_quality kw = Some (quality cfg))).

(** ** What a computation may do to the file system *)

(** [touches_only P m]: whatever [m] returns or raises, a path outside [P]
    holds afterwards what it held before, no path that existed is gone, and
    the save calls [m] issued all go to paths in [P]. *)
Definition touches_only {A} (P : string -> Prop) (m : M A) : Prop :=
  forall w,
    (forall p, ~ P p -> fs (snd (m w)) !! p = fs w !! p) /\
    (forall p, is_Some (fs w !! p) -> is_Some (fs (snd (m w)) !! p)) /\
    exists calls,
      saves (snd (m w)) = saves w ++ calls /\
      Forall (fun c => P (save_path c)) calls.

(** The exception [process_single_file] re-raises for an exception of the
    conversion: [UnidentifiedImageError] becomes a [RuntimeError] naming
    the path, anything else passes unchanged. *)
Definition reraised (src_path : string) (e : exn) : exn :=
  if decide (exn_cls e = UnidentifiedImageError)
  then Exn RuntimeError ("Skipped (not an image or corrupted): " +:+ src_path)
  else e.

(** ** The image [ImageOps.exif_transpose] returns *)

(** In Pillow, [ImageOps.exif_transpose] never returns the opened file
    object: it returns a new [Image.Image], the copy of the frame the
    source stands at (transposed when the source has an orientation tag).
    The new image keeps the mode, the pixels and [info]; its [format] is
    [None], and it has neither [is_animated] nor [n_frames], which are
    attributes of the file classes. *)
Definition plain_copy (img : image) : image :=
  {| img_format := None; img_is_animated := None; img_n_frames := None;
     img_mode := img_mode img; info_exif := info_exif img;
     info_icc_profile := info_icc_profile img;
     info_transparency := info_transparency img;
     info_duration := info_duration img; info_loop := info_loop img;
     img_pixels := img_pixels img |}.

(** ** More concrete cases *)

Module Cases.

(** A codec whose writer always fails (a full disk), everything else as in
    [Demo.codec]. *)
Definition full_disk : Codec :=
  {| exif_transpose := @exif_transpose (Demo.codec false);
     seek := @seek (Demo.codec false);
     convert := @convert (Demo.codec false);
     thumbnail := @thumbnail (Demo.codec false);
     encode c := Raise (Exn OSError "[Errno 28] No space left on device") |}.

(** [Demo.files] after an earlier run left a thumbnail of [in/cat.png],
    newer than the source, but no main output. *)
Definition with_cat_thumb : world :=
  World (<["thumbs/cat_thumb.webp" :=
             Demo.src_file 60 30 (Ok (Demo.still "RGB" 1))]> Demo.files) [].

(** The same configuration with skip-existing off. *)
Definition always_convert : Config :=
  {| input_folder := "in"; output_webp_folder := "webp";
     output_thumb_folder := "thumbs"; quality := 90; method := 6;
     thumb_size := (400, 400)%Z; max_workers := 2;
     preserve_exif := true; preserve_icc := true; preserve_alpha := true;
     force_lossless_for_alpha := true; skip_existing := false;
     log_file := "convert_images.log"; failed_list_file := "failed_files.txt" |}.

(** [Demo.codec] with the [exif_transpose] of Pillow. *)
Definition copying : Codec :=
  {| exif_transpose img := Ok (plain_copy img);
     seek := @seek (Demo.codec false);
     convert := @convert (Demo.codec false);
     thumbnail := @thumbnail (Demo.codec false);
     encode := @encode (Demo.codec false) |}.

End Cases.

(** ** gather_image_files *)

(** Text operations of Python on ASCII text. *)
Module PyStr.

Definition lower_ascii (c : ascii) : ascii :=
  let n := nat_of_ascii c in
  if (65 <=? n)%nat && (n <=? 90)%nat then ascii_of_nat (n + 32) else c.

(** [s.lower()] *)
Fixpoint lower (s : string) : string :=
  match s with
  | EmptyString => EmptyString
  | String c r => String (lower_ascii c) (lower r)
  end.

(** [s.endswith(suffix)] *)
Fixpoint endswith (s suffix : string) : bool :=
  String.eqb s suffix
  || match s with
     | EmptyString => false
     | String _ r => endswith r suffix
     end.

(** [s.startswith(prefix)] *)
Definition startswith (s prefix : string) : bool := String.prefix prefix s.

Fixpoint has_dot (s : string) : bool :=
  match s with
  | EmptyString => false
  | String c r => Ascii.eqb c "."%char || has_dot r
  end.

End PyStr.

(** [os.path.join(a, b)] on POSIX. *)
Definition os_path_join (a b : string) : string :=
  if PyStr.startswith b "/" then b
  else if String.eqb a "" || PyStr.endswith a "/" then a +:+ b
  else a +:+ "/" +:+ b.

Definition allowed : list string :=
  [".jpg"; ".jpeg"; ".png"; ".gif"; ".webp"; ".bmp"; ".tiff"].

(** [entry.lower().endswith(allowed)] *)
Definition is_image_name (entry : string) : bool :=
  existsb (PyStr.endswith (PyStr.lower entry)) allowed.

(** [gather_image_files], on the listing [os.listdir(input_folder)]
    returned. *)
Definition gather_image_files (input_folder : string) (listing : list string)
  : list string :=
  fold_left
    (fun files entry =>
       if is_image_name entry
       then files ++ [os_path_join input_folder entry]
       else files)
    listing [].


(** ** parse_env_value *)

Module PyText.

(** The characters [str.strip()] and [int()] take for blanks (ASCII). *)
Definition is_space (c : ascii) : bool :=
  let n := nat_of_ascii c in
  ((9 <=? n)%nat && (n <=? 13)%nat) || ((28 <=? n)%nat && (n <=? 32)%nat).

Fixpoint lstrip (s : string) : string :=
  match s with
  | EmptyString => EmptyString
  | String c r => if is_space c then lstrip r else s
  end.

Fixpoint rstrip (s : string) : string :=
  match s with
  | EmptyString => EmptyString
  | String c r =>
      match rstrip r with
      | EmptyString => if is_space c then EmptyString else String c EmptyString
      | r' => String c r'
      end
  end.

(** [s.strip()] *)
Definition strip (s : string) : string := rstrip (lstrip s).

(** [s.split(sep)] for a one-character separator. *)
Fixpoint split (sep : ascii) (s : string) : list string :=
  match s with
  | EmptyString => [EmptyString]
  | String c r =>
      if Ascii.eqb c sep then EmptyString :: split sep r
      else match split sep r with
           | [] => [String c EmptyString]
           | part :: parts => String c part :: parts
           end
  end.

Definition is_digit (c : ascii) : bool :=
  let n := nat_of_ascii c in (48 <=? n)%nat && (n <=? 57)%nat.

(** The digits of an integer literal: digits, with single underscores
    between them only.  [after_digit] tells whether the previous character
    was a digit. *)
Fixpoint literal_ok (s : string) (after_digit : bool) : bool :=
  match s with
  | EmptyString => after_digit
  | String c r =>
      if is_digit c then literal_ok r true
      else if Ascii.eqb c "_"%char then after_digit && literal_ok r false
      else false
  end.

Fixpoint without_underscores (s : string) : string :=
  match s with
  | EmptyString => EmptyString
  | String c r =>
      if Ascii.eqb c "_"%char then without_underscores r
      else String c (without_underscores r)
  end.

(** [sys.get_int_max_str_digits()] *)
Definition max_str_digits : nat := 4300.

(** [int(s)]: [None] stands for the ValueError.  Blanks around the literal
    are dropped, a sign may come first, and a literal of more than
    [max_str_digits] digits is refused. *)
Definition int (s : string) : option Z :=
  let t := strip s in
  let '(negative, body) :=
    match t with
    | String "-" r => (true, r)
    | String "+" r => (false, r)
    | _ => (false, t)
    end in
  if literal_ok body false then
    let ds := without_underscores body in
    if (max_str_digits <? String.length ds)%nat then None
    else match NilZero.uint_of_string ds with
         | Some d => Some (Z.of_int (if negative then Decimal.Neg d else Decimal.Pos d))
         | None => None
         end
  else None.

(** [str(n)] *)
Definition str_int (n : Z) : string := NilZero.string_of_int (Z.to_int n).

(** [sep.join(parts)] *)
Fixpoint join (sep : string) (parts : list string) : string :=
  match parts with
  | [] => EmptyString
  | [p] => p
  | p :: rest => p +:+ sep +:+ join sep rest
  end.

(** The characters of a text, each as a text of its own. *)
Fixpoint chars (s : string) : list string :=
  match s with
  | EmptyString => []
  | String c r => String c EmptyString :: chars r
  end.

End PyText.

(** A value of the configuration dictionary: what [json] produces, and the
    tuples [load_config] makes. *)
#[local] Unset Elimination Schemes.
Inductive value :=
| VNone
| VBool (b : bool)
| VInt (z : Z)
| VFloat (f : float)
| VStr (s : string)
| VList (l : list value)
| VTuple (l : list value)
| VDict (items : list (string * value)).
#[local] Set Elimination Schemes.

(** The types of the schema. *)
Inductive target_type := TStr | TInt | TList | TBool.

Section ParseEnv.
(** [json.loads]: [None] when it raises. *)
Variable json_loads : string -> option value.

(** One part of a comma-separated list: an int when it reads as one. *)
Definition list_part (p : string) : value :=
  match PyText.int p with
  | Some n => VInt n
  | None => VStr p
  end.

(** [parse_env_value(value, target_type)].  Every exception raised inside
    is caught and answered with the text itself. *)
Definition parse_env_value (v : option string) (target_type : target_type) : value :=
  match v with
  | None => VNone
  | Some text =>
      match target_type with
      | TBool =>
          VBool (existsb (String.eqb (PyStr.lower (PyText.strip text)))
                   ["1"; "true"; "yes"; "y"; "on"])
      | TInt =>
          match PyText.int text with
          | Some n => VInt n
          | None => VStr text
          end
      | TList =>
          match json_loads text with
          | Some (VList parsed) => VList parsed
          | Some _ => VStr text
          | None =>
              VList (map list_part
                       (List.filter (fun p => negb (String.eqb p ""))
                          (map PyText.strip (PyText.split ","%char text))))
          end
      | TStr => VStr text
      end
  end.

End ParseEnv.



(** ** load_config *)

(** What [load_config] finds at [config_path]: no file, a file that
    [json.load] reads as the given value, or a file on which opening or
    reading raises. *)
Inductive settings_file :=
| NoSettings
| SettingsValue (parsed : value)
| SettingsError (e : exn).

Definition schema : list (string * target_type) :=
  [ ("input_folder", TStr); ("output_webp_folder", TStr);
    ("output_thumb_folder", TStr); ("quality", TInt); ("method", TInt);
    ("thumb_size", TList); ("max_workers", TInt); ("preserve_exif", TBool);
    ("preserve_icc", TBool); ("preserve_alpha", TBool);
    ("force_lossless_for_alpha", TBool); ("skip_existing", TBool);
    ("log_file", TStr); ("failed_list_file", TStr) ].

Definition required_keys : list string :=
  ["input_folder"; "output_webp_folder"; "output_thumb_folder"].

(** The [cfg.setdefault(key, value)] calls, in order. *)
Definition defaults : list (string * value) :=
  [ ("quality", VInt 100); ("method", VInt 6); ("max_workers", VInt 4);
    ("preserve_exif", VBool true); ("preserve_icc", VBool true);
    ("preserve_alpha", VBool true); ("force_lossless_for_alpha", VBool true);
    ("skip_existing", VBool true); ("log_file", VStr "convert_images.log");
    ("failed_list_file", VStr "failed_files.txt") ].

(** The dictionary of a JSON object: a later item replaces an earlier one
    with the same key. *)
Definition dict_of (items : list (string * value)) : gmap string value :=
  fold_left (fun m kv => <[fst kv := snd kv]> m) items ∅.

(** [cfg[k] in (None, "")] for a key that is present, or [k not in cfg]. *)
Definition is_missing (cfg : gmap string value) (k : string) : bool :=
  match cfg !! k with
  | None | Some VNone | Some (VStr EmptyString) => true
  | Some _ => false
  end.


(** [repr] of a list of key names. *)
Definition repr_keys (ks : list string) : string :=
  "[" +:+ PyText.join ", " (map (fun k => "'" +:+ k +:+ "'") ks) +:+ "]".

(** The text of the [FileNotFoundError] for the given missing keys. *)
Definition incomplete (missing : list string) : exn :=
  Exn FileNotFoundError
    ("Configuration incomplete. Missing keys: " +:+ repr_keys missing +:+ ". "
       +:+ "Provide these keys in 'settings.json' or via environment variables.").

(** [cfg.setdefault(key, value)] *)
Definition setdefault (cfg : gmap string value) (kv : string * value)
  : gmap string value :=
  match cfg !! fst kv with
  | Some _ => cfg
  | None => <[fst kv := snd kv]> cfg
  end.

(** [tuple(x)] for the two kinds of value [parse_env_value] returns for a
    list; anything else stays as it is. *)
Definition tuple_of (v : value) : value :=
  match v with
  | VList l => VTuple l
  | VStr s => VTuple (map VStr (PyText.chars s))
  | other => other
  end.

Section LoadConfig.
Variable json_loads : string -> option value.
(** [os.getenv] *)
Variable env : gmap string string.

(** One round of the loop over the schema: the environment variable named
    as the key in upper case, or else the one with the prefix [CONVERT_],
    replaces the entry. *)
Definition override (cfg : gmap string value) (entry : string * target_type)
  : gmap string value :=
  let env_name := upper (fst entry) in
  match env !! env_name with
  | Some env_val =>
      <[fst entry := parse_env_value json_loads (Some env_val) (snd entry)]> cfg
  | None =>
      match env !! ("CONVERT_" +:+ env_name) with
      | Some pref =>
          <[fst entry := parse_env_value json_loads (Some pref) (snd entry)]> cfg
      | None => cfg
      end
  end.

(** Step 4: [thumb_size] becomes a tuple. *)
Definition normalize_thumb_size (cfg : gmap string value) : gmap string value :=
  match cfg !! "thumb_size" with
  | Some (VStr ts) =>
      <["thumb_size" := tuple_of (parse_env_value json_loads (Some ts) TList)]> cfg
  | Some (VList l) => <["thumb_size" := VTuple l]> cfg
  | Some _ => cfg
  | None => <["thumb_size" := VTuple [VInt 400; VInt 400]]> cfg
  end.

Definition load_config (settings : settings_file) : result (gmap string value) :=
  match
    match settings with
    | NoSettings => Ok ∅
    | SettingsError e => Raise e
    | SettingsValue (VDict items) => Ok (dict_of items)
    | SettingsValue _ =>
        Raise (Exn RuntimeError "settings.json must contain a JSON object.")
    end
  with
  | Raise e => Raise e
  | Ok cfg =>
      let cfg := fold_left override schema cfg in
      match List.filter (is_missing cfg) required_keys with
      | (_ :: _) as missing =>
          Raise (incomplete missing)
      | [] =>
          Ok (fold_left setdefault defaults (normalize_thumb_size cfg))
      end
  end.

End LoadConfig.


(** The dictionary read from the settings file, when there is one. *)
Definition settings_dict (settings : settings_file) : gmap string value :=
  match settings with
  | SettingsValue (VDict items) => dict_of items
  | _ => ∅
  end.

(** What the inputs say about one key: the environment variable named as
    the key in upper case, or else the one with the prefix [CONVERT_], or
    else the settings file. *)
Definition configured (json_loads : string -> option value)
    (env : gmap string string) (settings : settings_file)
    (key : string) (typ : target_type) : option value :=
  match env !! upper key with
  | Some text => Some (parse_env_value json_loads (Some text) typ)
  | None =>
      match env !! ("CONVERT_" +:+ upper key) with
      | Some text => Some (parse_env_value json_loads (Some text) typ)
      | None => settings_dict settings !! key
      end
  end.

(** A required key the inputs leave without a value: no variable and no
    entry, or one that is [None] or the empty text. *)
Definition unset (json_loads : string -> option value)
    (env : gmap string string) (settings : settings_file) (key : string) : bool :=
  match configured json_loads env settings key TStr with
  | None | Some VNone | Some (VStr EmptyString) => true
  | Some _ => false
  end.

(** A settings file that [json.load] reads as an object, or none at all. *)
Definition readable (settings : settings_file) : Prop :=
  settings = NoSettings \/ exists items, settings = SettingsValue (VDict items).

Module ConfigDemo.

(** [json.loads] on the texts used below; it raises on every other one. *)
Definition json_loads (text : string) : option value :=
  if String.eqb text "[200, 100]" then Some (VList [VInt 200; VInt 100])
  else if String.eqb text "400" then Some (VInt 400)
  else None.

Definition settings : settings_file :=
  SettingsValue
    (VDict [ ("input_folder", VStr "in"); ("output_webp_folder", VStr "webp");
             ("output_thumb_folder", VStr "thumbs"); ("quality", VInt 50);
             ("method", VNone); ("thumb_size", VList [VInt 320; VInt 240]);
             ("watermark", VStr "logo.png") ]).

Definition env : gmap string string :=
  <["QUALITY" := "85"]>
    (<["CONVERT_QUALITY" := "70"]> (<["CONVERT_SKIP_EXISTING" := " No "]> ∅)).

End ConfigDemo.

(** ** Texts made of digits, of blanks, or free of a character *)

Fixpoint all_digits (s : string) : bool :=
  match s with
  | EmptyString => true
  | String c r => PyText.is_digit c && all_digits r
  end.

Fixpoint all_space (s : string) : bool :=
  match s with
  | EmptyString => true
  | String c r => PyText.is_space c && all_space r
  end.

Fixpoint no_char (x : ascii) (s : string) : bool :=
  match s with
  | EmptyString => true
  | String c r => negb (Ascii.eqb c x) && no_char x r
  end.

(** * Sanity checks of the embedding *)

Example basename_ex : Path.basename "in/photos/cat.tar.png" = "cat.tar.png".
Proof. reflexivity. Qed.

Example stem_ex : Path.stem "in/photos/cat.tar.png" = "cat.tar".
Proof. reflexivity. Qed.

Example stem_hidden_ex : Path.stem "in/.png" = ".png".
Proof. reflexivity. Qed.

Example percent_ex : Py.percent_or_zero 350 1000 = Py.PyFloat 35%float.
Proof. reflexivity. Qed.

Example percent_empty_ex : Py.percent_or_zero 0 0 = Py.PyInt 0.
Proof. reflexivity. Qed.

(** [format] rounds the exact binary value, ties to even. *)
Example format_f_ex :
  Py.format_f 1 (Py.PyFloat 0.25%float) = "0.2" /\
  Py.format_f 1 (Py.PyFloat 0.75%float) = "0.8" /\
  Py.format_f 2 (Py.PyFloat 1234.5%float) = "1234.50" /\
  Py.format_f 1 (Py.PyInt 0) = "0.0" /\
  Py.format_f 1 (Py.PyFloat 35%float) = "35.0".
Proof. repeat split. Qed.

Example format_file_size_ex :
  format_file_size 0 = "0 B" /\
  format_file_size 1000 = "1000.0 B" /\
  format_file_size 1536 = "1.5 KB" /\
  format_file_size (-2048) = "-2.0 KB" /\
  format_file_size (5 * 1024 ^ 5) = "5120.0 TB".
Proof. repeat split. Qed.

Example upper_ex : upper "gif" = "GIF".
Proof. reflexivity. Qed.

(** * Reasoning about the pipeline monad *)

Lemma bind_unfold {A B} (m : M A) (k : A -> M B) (w : world) :
  (m ≫= k) w =
  match m w with
  | (Ok a, w') => k a w'
  | (Raise e, w') => (Raise e, w')
  end.
Proof. reflexivity. Qed.

Lemma bind_Ok_inv {A B} (m : M A) (k : A -> M B) w b w' :
  (m ≫= k) w = (Ok b, w') ->
  exists a w1, m w = (Ok a, w1) /\ k a w1 = (Ok b, w').
Proof.
  rewrite bind_unfold. destruct (m w) as [[a|e] w1]; [eauto | discriminate].
Qed.

Lemma try_except_Ok_inv {A} (m : M A) (h : exn -> M A) w a w' :
  try_except m h w = (Ok a, w') ->
  m w = (Ok a, w') \/ exists e w1, m w = (Raise e, w1) /\ h e w1 = (Ok a, w').
Proof.
  unfold try_except. destruct (m w) as [[a0|e] w1]; [left | right; eauto].
  assumption.
Qed.

Lemma try_except_cls_Ok_inv {A} cls (m : M A) (h : exn -> M A) w a w' :
  try_except_cls cls m h w = (Ok a, w') ->
  m w = (Ok a, w') \/
  exists e w1, m w = (Raise e, w1) /\ exn_cls e = cls /\ h e w1 = (Ok a, w').
Proof.
  intros Hrun. apply try_except_Ok_inv in Hrun as [Hok | (e & w1 & Hm & Hh)].
  - now left.
  - right. exists e, w1. destruct (decide (exn_cls e = cls)); [auto | discriminate].
Qed.

(** * The file system steps never fail on an existing source *)

Lemma path_exists_run p w :
  path_exists p w = (Ok (bool_decide (is_Some (fs w !! p))), w).
Proof. reflexivity. Qed.

Lemma size_if_exists_run p prev w :
  size_if_exists p prev w =
  (Ok (match fs w !! p with Some f => st_size f | None => prev end), w).
Proof.
  unfold size_if_exists. rewrite bind_unfold, path_exists_run.
  destruct (fs w !! p) as [f|] eqn:E; simpl.
  - rewrite bind_unfold. unfold path_stat. rewrite E. reflexivity.
  - reflexivity.
Qed.

Lemma up_to_date_run p src w f :
  fs w !! src = Some f ->
  up_to_date p src w =
  (Ok (match fs w !! p with
       | Some o => (st_mtime f <=? st_mtime o)%Z
       | None => false
       end), w).
Proof.
  intros Hsrc. unfold up_to_date. rewrite bind_unfold, path_exists_run.
  destruct (fs w !! p) as [o|] eqn:E; simpl.
  - rewrite bind_unfold. unfold path_stat at 1. rewrite E.
    rewrite bind_unfold. unfold path_stat. rewrite Hsrc. reflexivity.
  - reflexivity.
Qed.

Lemma skip_stage_run src out_webp out_thumb cfg w f :
  fs w !! src = Some f ->
  skip_stage src out_webp out_thumb cfg (init_stats (st_size f)) (st_size f) w =
  (Ok (if skip_existing cfg && main_is_current src out_webp w
       then Some ("Skip (webp exists and up-to-date): " +:+ Path.basename src,
                  skipped_stats out_webp out_thumb (st_size f) w)
       else None), w).
Proof.
  intros Hsrc. unfold skip_stage, main_is_current. rewrite Hsrc.
  destruct (skip_existing cfg); [|reflexivity]. simpl.
  unfold try_except_cls, try_except, skip_check.
  rewrite bind_unfold, (up_to_date_run _ _ _ _ Hsrc).
  destruct (fs w !! out_webp) as [o|] eqn:Ho; [|reflexivity].
  destruct (st_mtime f <=? st_mtime o)%Z; [|reflexivity].
  rewrite bind_unfold, size_if_exists_run, Ho.
  rewrite bind_unfold, size_if_exists_run.
  unfold skipped_stats. rewrite Ho. reflexivity.
Qed.

(** * The statistics of a returned file *)

Section PipelineFacts.
Context `{Codec}.

Lemma skip_stage_consistent src out_webp out_thumb cfg w f r w' :
  fs w !! src = Some f ->
  skip_stage src out_webp out_thumb cfg (init_stats (st_size f)) (st_size f) w
    = (Ok (Some r), w') ->
  stats_consistent (st_size f) (snd r).
Proof.
  intros Hsrc. rewrite (skip_stage_run _ _ _ _ _ _ Hsrc).
  destruct (skip_existing cfg && main_is_current src out_webp w); [|discriminate].
  intros [= <- _]. repeat split.
Qed.

Lemma thumb_step_consistent src out_thumb cfg stats original w r w' :
  original_size stats = original ->
  thumb_step src out_thumb cfg stats original w = (Ok (Some r), w') ->
  stats_consistent original (snd r).
Proof.
  intros Horig Hrun. unfold thumb_step in Hrun.
  apply bind_Ok_inv in Hrun as (current & w1 & _ & Hrun).
  destruct current.
  - apply bind_Ok_inv in Hrun as (o & w2 & _ & Hrun).
    injection Hrun as <- _. repeat split. exact Horig.
  - apply bind_Ok_inv in Hrun as (u & w2 & _ & Hrun). discriminate.
Qed.

Lemma thumb_try_consistent src name out_thumb cfg stats original w r w' :
  original_size stats = original ->
  thumb_size_ stats = 0%Z ->
  thumb_try src name out_thumb cfg stats original w = (Ok (Some r), w') ->
  stats_consistent original (snd r).
Proof.
  intros Horig Hthumb Hrun. unfold thumb_try in Hrun.
  apply try_except_Ok_inv in Hrun as [Hok | (e & w1 & _ & Hh)].
  - eapply thumb_step_consistent; eassumption.
  - injection Hh as <- _. repeat split; simpl; [exact Horig | | ];
      rewrite Hthumb, Z.add_0_r; reflexivity.
Qed.

Lemma convert_stage_consistent src out_webp out_thumb cfg original w msg s w' :
  convert_stage src out_webp out_thumb cfg (init_stats original) original w
    = (Ok (msg, s), w') ->
  stats_consistent original s.
Proof.
  intros Hrun. unfold convert_stage in Hrun.
  apply bind_Ok_inv in Hrun as ([] & w1 & _ & Hrun).
  apply bind_Ok_inv in Hrun as (wsize & w2 & _ & Hrun).
  apply bind_Ok_inv in Hrun as (early & w3 & Htry & Hrun).
  destruct early as [r|].
  - injection Hrun as -> _.
    apply thumb_try_consistent in Htry; [exact Htry | reflexivity | reflexivity].
  - apply bind_Ok_inv in Hrun as (tsize & w4 & _ & Hrun).
    injection Hrun as _ <- _. repeat split.
Qed.

(** Every [stats] that [process_single_file] returns carries the size of
    the source file, the sum of the two output sizes, and the ratio of that
    sum to the source size. *)
Lemma process_single_file_consistent src cfg w msg s w' :
  process_single_file src cfg w = (Ok (msg, s), w') ->
  exists f, fs w !! src = Some f /\ stats_consistent (st_size f) s.
Proof.
  intros Hrun. unfold process_single_file in Hrun.
  apply bind_Ok_inv in Hrun as (f & w1 & Hstat & Hrun).
  unfold path_stat in Hstat.
  destruct (fs w !! src) as [f0|] eqn:Hsrc; [|discriminate].
  injection Hstat as -> ->. exists f. split; [reflexivity|].
  apply bind_Ok_inv in Hrun as (skipped & w2 & Hskip & Hrun).
  destruct skipped as [r|].
  - injection Hrun as -> _.
    apply (skip_stage_consistent _ _ _ _ _ _ _ _ Hsrc) in Hskip. exact Hskip.
  - apply try_except_cls_Ok_inv in Hrun as [Hok | (e & w3 & _ & _ & Hh)].
    + eapply convert_stage_consistent; eassumption.
    + discriminate.
Qed.

End PipelineFacts.

(** * Per-file compression ratio *)

(** C8.  Whenever [process_single_file] returns, the [compression_ratio] it
    reports is [(webp_size + thumb_size) / original_size * 100] (in binary64
    arithmetic) for a non-empty source and the integer 0 for an empty one;
    for a source of 1000 bytes with outputs of 300 and 50 bytes it is
    exactly 35.0, printed as "35.0". *)
Theorem compression_ratio_of_file `{Codec} src cfg w msg s w' :
  process_single_file src cfg w = (Ok (msg, s), w') ->
  ((0 < original_size s)%Z ->
   compression_ratio s =
   Py.PyFloat (PrimFloat.mul
                 (Py.truediv (webp_size s + thumb_size_ s) (original_size s))
                 100%float)) /\
  (original_size s = 0%Z -> compression_ratio s = Py.PyInt 0) /\
  (original_size s = 1000%Z -> webp_size s = 300%Z -> thumb_size_ s = 50%Z ->
   compression_ratio s = Py.PyFloat 35%float /\
   Py.format_f 1 (compression_ratio s) = "35.0").
Proof.
  intros Hrun.
  apply process_single_file_consistent in Hrun as (f & _ & Horig & _ & Hratio).
  rewrite Hratio, Horig. unfold Py.percent_or_zero.
  split; [|split].
  - intros Hpos. apply Z.ltb_lt in Hpos. rewrite Hpos. reflexivity.
  - intros ->. reflexivity.
  - intros -> -> ->. split; reflexivity.
Qed.

Lemma compression_ratio_of_file_witness :
  exists msg s w',
    @process_single_file (Demo.codec false) "in/cat.png" Demo.config Demo.w0
      = (Ok (msg, s), w') /\
    original_size s = 1000%Z /\ webp_size s = 300%Z /\ thumb_size_ s = 50%Z /\
    compression_ratio s = Py.PyFloat 35%float /\
    Py.format_f 1 (compression_ratio s) = "35.0".
Proof.
  eexists _, _, _. split; [vm_compute; reflexivity|].
  split; [reflexivity|]. split; [reflexivity|]. split; [reflexivity|].
  eapply (@compression_ratio_of_file (Demo.codec false) "in/cat.png" Demo.config Demo.w0);
    vm_compute; reflexivity.
Defined.

(** * What a worker returns *)

Section TaskFacts.
Context `{Codec}.

Lemma process_file_task_ok src cfg w o w' :
  process_file_task src cfg w = (o, w') ->
  out_ok o = true ->
  exists f s, fs w !! src = Some f /\ out_stats o = Some s /\
    stats_consistent (st_size f) s.
Proof.
  unfold process_file_task.
  destruct (process_single_file src cfg w) as [[[msg s]|e] w1] eqn:Hrun;
    intros [= <- <-] Hok; [|discriminate].
  apply process_single_file_consistent in Hrun as (f & Hsrc & Hs).
  exists f, s. auto.
Qed.

Lemma process_file_task_failed src cfg w o w' :
  process_file_task src cfg w = (o, w') ->
  out_ok o = false ->
  out_stats o = None /\ out_filename o = Path.basename src /\
  exists e, process_single_file src cfg w = (Raise e, w') /\
    out_message o = exn_str e.
Proof.
  unfold process_file_task.
  destruct (process_single_file src cfg w) as [[[msg s]|e] w1] eqn:Hrun;
    intros [= <- <-] Hok; [discriminate|].
  simpl. eauto.
Qed.

End TaskFacts.

(** * Sizes added by the result loop *)

(** C1, as stated, fails on the code.  The 1000-byte file [in/bad.png] is
    not an image: its failure outcome is folded and the original-size total
    stays 0.  The skipped file [in/old.png] (main output of 1200 bytes
    already there and current) adds those 1200 bytes to the output total,
    not zero. *)
Lemma failure_adds_no_original_size :
  (st_size <$> Demo.files !! "in/bad.png") = Some 1000%Z /\
  (let '(o, _) :=
     @process_file_task (Demo.codec false) "in/bad.png" Demo.config Demo.w0 in
   out_ok o = false /\
   total_original_size
     (fold_result (start_totals []) "in/bad.png" (Returned o)) = 0%Z /\
   total_original_size
     (fold_result (start_totals []) "in/bad.png" (Returned o))
     <> (total_original_size (start_totals []) + 1000)%Z) /\
  (let '(o, _) :=
     @process_file_task (Demo.codec false) "in/old.png" Demo.config Demo.w0 in
   out_ok o = true /\
   out_message o = "Skip (webp exists and up-to-date): old.png" /\
   total_webp_size
     (fold_result (start_totals []) "in/old.png" (Returned o)) = 1200%Z /\
   total_webp_size
     (fold_result (start_totals []) "in/old.png" (Returned o))
     <> total_webp_size (start_totals [])).
Proof. vm_compute. repeat split; discriminate. Qed.

(** C1, amended.  An outcome with [ok = True] (converted, skipped, or
    converted with a failed thumbnail) adds the size of the source file to
    the original-size total and the sizes it reports to the two output
    totals; a failure outcome, returned by the worker or raised by the
    future, adds nothing to any of the three totals. *)
Theorem fold_result_sizes `{Codec} crash cfg src w r w' t :
  future_of crash cfg src w = (r, w') ->
  match r with
  | Returned o =>
      if out_ok o then
        exists f s, fs w !! src = Some f /\ out_stats o = Some s /\
          total_original_size (fold_result t src r)
            = (total_original_size t + st_size f)%Z /\
          total_webp_size (fold_result t src r)
            = (total_webp_size t + webp_size s)%Z /\
          total_thumb_size (fold_result t src r)
            = (total_thumb_size t + thumb_size_ s)%Z
      else
        out_stats o = None /\
        total_original_size (fold_result t src r) = total_original_size t /\
        total_webp_size (fold_result t src r) = total_webp_size t /\
        total_thumb_size (fold_result t src r) = total_thumb_size t
  | FutureRaised _ =>
      total_original_size (fold_result t src r) = total_original_size t /\
      total_webp_size (fold_result t src r) = total_webp_size t /\
      total_thumb_size (fold_result t src r) = total_thumb_size t
  end.
Proof.
  unfold future_of. destruct (crash src) as [e|].
  - intros [= <- _]. simpl. auto.
  - destruct (process_file_task src cfg w) as [o w1] eqn:Htask.
    intros [= <- <-]. destruct (out_ok o) eqn:Hok.
    + destruct (process_file_task_ok _ _ _ _ _ Htask Hok)
        as (f & s & Hsrc & Hstats & Horig & _).
      exists f, s. simpl. rewrite Hok, Hstats. simpl. rewrite Horig. auto.
    + destruct (process_file_task_failed _ _ _ _ _ Htask Hok) as (Hstats & _).
      simpl. rewrite Hok. simpl. auto.
Qed.

Lemma fold_result_sizes_witness :
  exists f s,
    fs Demo.w0 !! "in/cat.png" = Some f /\ st_size f = 1000%Z /\
    webp_size s = 300%Z /\ thumb_size_ s = 50%Z /\
    let r := fst (@future_of (Demo.codec false) Demo.no_crash Demo.config
                    "in/cat.png" Demo.w0) in
    let t := fold_result (start_totals []) "in/cat.png" r in
    total_original_size t = (0 + st_size f)%Z /\
    total_webp_size t = (0 + webp_size s)%Z /\
    total_thumb_size t = (0 + thumb_size_ s)%Z.
Proof.
  destruct (@fold_result_sizes (Demo.codec false) Demo.no_crash Demo.config
              "in/cat.png" Demo.w0 _ _ (start_totals []) eq_refl)
    as (f & s & Hsrc & Hstats & Horig & Hwebp & Hthumb).
  exists f, s. split; [exact Hsrc|].
  vm_compute in Hsrc. injection Hsrc as <-.
  vm_compute in Hstats. injection Hstats as <-.
  split; [reflexivity|]. split; [reflexivity|]. split; [reflexivity|].
  split; [exact Horig|]. split; [exact Hwebp | exact Hthumb].
Defined.

(** * The skip decision *)

(** [process_single_file] on an existing source: either the early return of
    the skip block, with the world untouched, or the conversion. *)
Lemma process_single_file_run `{Codec} src cfg w f :
  fs w !! src = Some f ->
  process_single_file src cfg w =
  if skip_existing cfg && main_is_current src (out_webp_of src cfg) w
  then (Ok ("Skip (webp exists and up-to-date): " +:+ Path.basename src,
            skipped_stats (out_webp_of src cfg) (out_thumb_of src cfg)
              (st_size f) w), w)
  else try_except_cls UnidentifiedImageError
         (convert_stage src (out_webp_of src cfg) (out_thumb_of src cfg) cfg
            (init_stats (st_size f)) (st_size f))
         (fun _ => raise (Exn RuntimeError
                            ("Skipped (not an image or corrupted): " +:+ src)))
         w.
Proof.
  intros Hsrc. unfold process_single_file.
  rewrite bind_unfold. unfold path_stat at 1. rewrite Hsrc.
  rewrite bind_unfold, (skip_stage_run _ _ _ _ _ _ Hsrc).
  destruct (skip_existing cfg && main_is_current src (out_webp_of src cfg) w);
    reflexivity.
Qed.

(** C2, as stated, fails on the code.  [in/old.png] has a current main
    output and no thumbnail, and skip-existing is on: the file is reported
    as skipped, no save call is issued, the world is unchanged and the
    thumbnail is still missing afterwards. *)
Lemma missing_thumbnail_not_regenerated :
  skip_existing Demo.config = true /\
  main_is_current "in/old.png" (out_webp_of "in/old.png" Demo.config) Demo.w0
    = true /\
  fs Demo.w0 !! out_thumb_of "in/old.png" Demo.config = None /\
  (let '(r, w') :=
     @process_single_file (Demo.codec false) "in/old.png" Demo.config Demo.w0 in
   (exists s, r = Ok ("Skip (webp exists and up-to-date): old.png", s) /\
              thumb_size_ s = 0%Z) /\
   saves w' = [] /\
   fs w' !! out_thumb_of "in/old.png" Demo.config = None /\
   w' = Demo.w0).
Proof.
  vm_compute. repeat split. eexists. split; reflexivity.
Qed.

(** C2, amended.  With skip-existing on and a main output that exists and is
    not older than the source, the file is skipped as a whole: the function
    returns at once with the "Skip" message and leaves the world as it was,
    so no codec call is made, no thumbnail check is evaluated and a stale
    or missing thumbnail is not regenerated.  The reported sizes are those
    of the output files present (zero for a missing thumbnail). *)
Theorem current_main_skips_file `{Codec} cfg src w f o :
  skip_existing cfg = true ->
  fs w !! src = Some f ->
  fs w !! out_webp_of src cfg = Some o ->
  (st_mtime f <= st_mtime o)%Z ->
  process_single_file src cfg w =
    (Ok ("Skip (webp exists and up-to-date): " +:+ Path.basename src,
         {| original_size := st_size f;
            webp_size := st_size o;
            thumb_size_ := match fs w !! out_thumb_of src cfg with
                           | Some t => st_size t
                           | None => 0%Z
                           end;
            total_size := st_size o + match fs w !! out_thumb_of src cfg with
                                      | Some t => st_size t
                                      | None => 0%Z
                                      end;
            compression_ratio :=
              Py.percent_or_zero
                (st_size o + match fs w !! out_thumb_of src cfg with
                             | Some t => st_size t
                             | None => 0%Z
                             end) (st_size f) |}),
     w).
Proof.
  intros Hskip Hsrc Hout Hmtime.
  rewrite (process_single_file_run _ _ _ _ Hsrc), Hskip.
  unfold main_is_current, skipped_stats. rewrite Hsrc, Hout.
  apply Z.leb_le in Hmtime. rewrite Hmtime. reflexivity.
Qed.

Lemma current_main_skips_file_witness :
  exists s,
    @process_single_file (Demo.codec false) "in/old.png" Demo.config Demo.w0
      = (Ok ("Skip (webp exists and up-to-date): old.png", s), Demo.w0) /\
    webp_size s = 1200%Z /\ thumb_size_ s = 0%Z.
Proof.
  eexists. split.
  - apply (@current_main_skips_file (Demo.codec false) Demo.config "in/old.png"
             Demo.w0 (Demo.src_file 4000 10 (Ok (Demo.still "RGB" 5)))
             (Demo.src_file 1200 20 (Ok (Demo.still "RGB" 5))));
      [reflexivity | reflexivity | reflexivity | vm_compute; discriminate].
  - split; reflexivity.
Defined.

(** * The encode policy of the main image *)

Section EncodeFacts.
Context `{Codec}.

Lemma save_run c w :
  save c w =
  match encode c with
  | Ok f => (Ok tt, World (<[save_path c := f]> (fs w)) (saves w ++ [c]))
  | Raise e => (Raise e, World (fs w) (saves w ++ [c]))
  end.
Proof. reflexivity. Qed.

Lemma saves_of_save c w : saves (snd (save c w)) = saves w ++ [c].
Proof. rewrite save_run. destruct (encode c); reflexivity. Qed.

Lemma image_open_run src w f :
  fs w !! src = Some f -> image_open src w = (decoded f, w).
Proof. intros Hsrc. unfold image_open. rewrite Hsrc. reflexivity. Qed.

Lemma last_cons {A} (x : A) (l : list A) (d : A) :
  List.last (x :: l) d = List.last l x.
Proof.
  revert x d. induction l as [|y l IH]; intros x d; [reflexivity|].
  change (List.last (x :: y :: l) d) with (List.last (y :: l) d).
  rewrite !IH. reflexivity.
Qed.

(** The frame loop succeeds on frames that can be sought and converted, and
    does not touch the world. *)
Lemma collect_frames_run i img sought converted w :
  frames_at i img sought converted ->
  collect_frames (length sought) i img w =
  (Ok (converted, map frame_duration sought, List.last sought img), w).
Proof.
  intros Hframes. revert w.
  induction Hframes as [i img | i img fr c sought converted Hseek Hconv _ IH];
    intros w; [reflexivity|].
  cbn [length collect_frames].
  rewrite bind_unfold. unfold lift at 1. rewrite Hseek.
  rewrite bind_unfold. unfold lift at 1. rewrite Hconv.
  rewrite bind_unfold, IH, last_cons. reflexivity.
Qed.

Lemma frames_at_length i img sought converted :
  frames_at i img sought converted -> length converted = length sought.
Proof. induction 1; simpl; congruence. Qed.

End EncodeFacts.

(** [encode_main] up to the branch on the kind of image. *)
Lemma encode_main_opened `{Codec} src out cfg w f img0 img :
  fs w !! src = Some f ->
  decoded f = Ok img0 ->
  exif_transpose img0 = Ok img ->
  encode_main src out cfg w =
  (let exif_bytes := if preserve_exif cfg then info_exif img else None in
   let icc_profile := if preserve_icc cfg then info_icc_profile img else None in
   if default false (img_is_animated img)
      && animation_format (upper (default "" (img_format img)))
   then
     '(frames, durations, img_end) ←
        collect_frames (default 1%nat (img_n_frames img)) 0 img;
     match frames with
     | [] => raise (Exn IndexError "list index out of range")
     | first :: rest =>
         let call := SaveAll out first rest durations
                       (default 0%Z (info_loop img_end))
                       (quality cfg) (method cfg) in
         try_except_cls TypeError (save call) (fun _ => save call)
     end
   else if has_alpha img && preserve_alpha cfg then
     out_img ← lift (convert img "RGBA");
     save (SaveStill out out_img
             (lossless_kwargs cfg (attach icc_profile) (attach exif_bytes)))
   else
     out_img ← lift (convert img "RGB");
     save (SaveStill out out_img
             (lossy_kwargs cfg (attach icc_profile) (attach exif_bytes)))) w.
Proof.
  intros Hsrc Hdec Htr. unfold encode_main.
  rewrite bind_unfold, (image_open_run _ _ _ Hsrc), Hdec.
  rewrite bind_unfold. unfold lift at 1. rewrite Htr. reflexivity.
Qed.

(** C3.  On the static path (the image, once opened and oriented, is not
    both animated and of a GIF or WEBP format; in particular every
    non-animated image), the one save call of the main image is lossless
    and names no quality when the image has an alpha channel (mode RGBA or
    LA, or mode P with a transparency entry) and [preserve_alpha] is on,
    whatever [quality] is configured; otherwise it is lossy at the
    configured quality. *)
Theorem static_encode_policy `{Codec} cfg src out w f img0 img :
  fs w !! src = Some f ->
  decoded f = Ok img0 ->
  exif_transpose img0 = Ok img ->
  default false (img_is_animated img)
    && animation_format (upper (default "" (img_format img))) = false ->
  let icc := attach (if preserve_icc cfg then info_icc_profile img else None) in
  let exif := attach (if preserve_exif cfg then info_exif img else None) in
  if has_alpha img && preserve_alpha cfg then
    forall out_img, convert img "RGBA" = Ok out_img ->
      saves (snd (encode_main src out cfg w)) =
      saves w ++ [SaveStill out out_img
                    {| kw_lossless := Some true; kw_quality := None;
                       kw_method := Some (method cfg);
                       kw_icc_profile := icc; kw_exif := exif |}]
  else
    forall out_img, convert img "RGB" = Ok out_img ->
      saves (snd (encode_main src out cfg w)) =
      saves w ++ [SaveStill out out_img
                    {| kw_lossless := None; kw_quality := Some (quality cfg);
                       kw_method := Some (method cfg);
                       kw_icc_profile := icc; kw_exif := exif |}].
Proof.
  intros Hsrc Hdec Htr Hstatic icc exif.
  rewrite (encode_main_opened _ _ _ _ _ _ _ Hsrc Hdec Htr). cbv zeta.
  rewrite Hstatic.
  destruct (has_alpha img && preserve_alpha cfg); intros out_img Hconv;
    rewrite bind_unfold; unfold lift at 1; rewrite Hconv;
    apply saves_of_save.
Qed.

Lemma static_encode_policy_witness :
  saves (snd (@encode_main (Demo.codec false) "in/logo.png" "webp/logo.webp"
                Demo.config Demo.w0)) =
  [SaveStill "webp/logo.webp" (Demo.still "RGBA" 2)
     {| kw_lossless := Some true; kw_quality := None; kw_method := Some 6%Z;
        kw_icc_profile := None; kw_exif := Some "Exif-bytes" |}] /\
  saves (snd (@encode_main (Demo.codec false) "in/cat.png" "webp/cat.webp"
                Demo.config Demo.w0)) =
  [SaveStill "webp/cat.webp" (Demo.still "RGB" 1)
     {| kw_lossless := None; kw_quality := Some 90%Z; kw_method := Some 6%Z;
        kw_icc_profile := None; kw_exif := Some "Exif-bytes" |}].
Proof.
  split.
  - apply (@static_encode_policy (Demo.codec false) Demo.config "in/logo.png"
             "webp/logo.webp" Demo.w0
             (Demo.src_file 2000 10 (Ok (Demo.still "RGBA" 2)))
             (Demo.still "RGBA" 2) (Demo.still "RGBA" 2));
      reflexivity.
  - apply (@static_encode_policy (Demo.codec false) Demo.config "in/cat.png"
             "webp/cat.webp" Demo.w0
             (Demo.src_file 1000 10 (Ok (Demo.still "RGB" 1)))
             (Demo.still "RGB" 1) (Demo.still "RGB" 1));
      reflexivity.
Defined.

(** * The animated path *)

Lemma saves_of_retry `{Codec} c w :
  saves (snd (try_except_cls TypeError (save c) (fun _ => save c) w)) =
  saves w ++ attempts c.
Proof.
  unfold try_except_cls, try_except, attempts. rewrite save_run.
  destruct (encode c) as [f|e] eqn:Henc; [reflexivity|].
  destruct (decide (exn_cls e = TypeError)); [|reflexivity].
  rewrite save_run, Henc. simpl. rewrite <- app_assoc. reflexivity.
Qed.

(** The animated branch, as it is written.  It reads [is_animated] and
    [format] off the image [exif_transpose] returned, not off the opened
    source.  When that image is animated and its
    format is GIF or WEBP, and each of its [n >= 1] frames can be sought and
    converted, the main image is written by one animated save call (issued
    a second time, unchanged, only if the writer raises TypeError): its
    frames are the [n] converted input frames in order, its durations are
    the per-frame durations of the input (100 for a frame that has none),
    its loop count is that of the input (0 if it has none), and its quality
    is the configured one; no still save call, lossless or not, is issued
    on this path. *)
Theorem animated_encode_policy `{Codec} cfg src out w f img0 img sought converted :
  fs w !! src = Some f ->
  decoded f = Ok img0 ->
  exif_transpose img0 = Ok img ->
  img_is_animated img = Some true ->
  animation_format (upper (default "" (img_format img))) = true ->
  length sought = default 1%nat (img_n_frames img) ->
  (0 < length sought)%nat ->
  frames_at 0 img sought converted ->
  exists first rest,
    converted = first :: rest /\
    length (first :: rest) = default 1%nat (img_n_frames img) /\
    let call := SaveAll out first rest (map frame_duration sought)
                  (default 0%Z (info_loop (List.last sought img)))
                  (quality cfg) (method cfg) in
    saves (snd (encode_main src out cfg w)) = saves w ++ attempts call /\
    (attempts call = [call] \/ attempts call = [call; call]) /\
    (forall i fr, sought !! i = Some fr ->
       map frame_duration sought !! i = Some (default 100%Z (info_duration fr))).
Proof.
  intros Hsrc Hdec Htr Hanim Hfmt Hcount Hpos Hframes.
  pose proof (frames_at_length _ _ _ _ Hframes) as Hlen.
  destruct converted as [|first rest]; [simpl in Hlen; lia|].
  exists first, rest. split; [reflexivity|]. split; [congruence|].
  cbv zeta. split; [|split].
  - rewrite (encode_main_opened _ _ _ _ _ _ _ Hsrc Hdec Htr). cbv zeta.
    rewrite Hanim, Hfmt.
    change (default false (Some true) && true) with true. cbv iota.
    rewrite bind_unfold, <- Hcount, (collect_frames_run _ _ _ _ _ Hframes).
    apply saves_of_retry.
  - unfold attempts.
    destruct (encode _) as [?|e]; [auto|].
    destruct (decide (exn_cls e = TypeError)); auto.
  - intros i fr Hi. rewrite list_lookup_fmap, Hi. reflexivity.
Qed.

Lemma animated_encode_policy_witness :
  exists first rest,
    saves (snd (@encode_main (Demo.codec false) "in/anim.gif" "webp/anim.webp"
                  Demo.config Demo.w0)) =
    [SaveAll "webp/anim.webp" first rest [40; 50; 60]%Z 3 90 6] /\
    length (first :: rest) = 3%nat.
Proof.
  pose (img := Demo.gif 3 30).
  pose (f0 := Demo.at_frame img 0).
  pose (f1 := Demo.at_frame f0 1).
  pose (f2 := Demo.at_frame f1 2).
  destruct (@animated_encode_policy (Demo.codec false) Demo.config "in/anim.gif"
              "webp/anim.webp" Demo.w0 (Demo.src_file 5000 10 (Ok img)) img img
              [f0; f1; f2]
              [Demo.with_mode f0 "RGBA"; Demo.with_mode f1 "RGBA";
               Demo.with_mode f2 "RGBA"])
    as (first & rest & Hconv & Hlen & Hsaves & _ & _);
    [reflexivity | reflexivity | reflexivity | reflexivity | reflexivity
    | reflexivity | simpl; lia
    | repeat (econstructor; [reflexivity | reflexivity |]); constructor |].
  exists first, rest. split; [exact Hsaves | exact Hlen].
Defined.

(** C4.  An animated source in a format of the animated path (GIF or WEBP)
    does not take that path when [exif_transpose] returns, as Pillow's
    does, an image without the attribute [is_animated]: whatever the number
    of frames of the source, no animated save call is issued; the only
    call the main encode can add is a still save of the one converted
    image, under the rules of the static path (lossless with no quality
    when that image has alpha and [preserve_alpha] is on, lossy at the
    configured quality otherwise).  The frames after the first, the
    per-frame delays and the loop count are not written. *)
Theorem animated_source_saved_as_still `{Codec} cfg src out w f img0 img :
  fs w !! src = Some f ->
  decoded f = Ok img0 ->
  img_is_animated img0 = Some true ->
  animation_format (upper (default "" (img_format img0))) = true ->
  exif_transpose img0 = Ok img ->
  img_is_animated img = None ->
  let icc := attach (if preserve_icc cfg then info_icc_profile img else None) in
  let exif := attach (if preserve_exif cfg then info_exif img else None) in
  (forall c, In c (saves (snd (encode_main src out cfg w))) ->
     In c (saves w) \/ exists im kw, c = SaveStill out im kw) /\
  (if has_alpha img && preserve_alpha cfg then
     forall out_img, convert img "RGBA" = Ok out_img ->
       saves (snd (encode_main src out cfg w)) =
       saves w ++ [SaveStill out out_img
                     {| kw_lossless := Some true; kw_quality := None;
                        kw_method := Some (method cfg);
                        kw_icc_profile := icc; kw_exif := exif |}]
   else
     forall out_img, convert img "RGB" = Ok out_img ->
       saves (snd (encode_main src out cfg w)) =
       saves w ++ [SaveStill out out_img
                     {| kw_lossless := None; kw_quality := Some (quality cfg);
                        kw_method := Some (method cfg);
                        kw_icc_profile := icc; kw_exif := exif |}]).
Proof.
  intros Hsrc Hdec _ _ Htr Hplain icc exif.
  rewrite (encode_main_opened _ _ _ _ _ _ _ Hsrc Hdec Htr). cbv zeta.
  rewrite Hplain. change (default false None && _) with false. cbv iota.
  split.
  - destruct (has_alpha img && preserve_alpha cfg);
      rewrite bind_unfold; unfold lift at 1;
      (destruct (convert img _) as [out_img|e]; [|intros c Hc; left; exact Hc]);
      rewrite saves_of_save; intros c Hc; apply in_app_or in Hc as [Hc|[<-|[]]];
      eauto.
  - destruct (has_alpha img && preserve_alpha cfg); intros out_img Hconv;
      rewrite bind_unfold; unfold lift at 1; rewrite Hconv;
      apply saves_of_save.
Qed.

Lemma animated_source_saved_as_still_witness :
  saves (snd (@encode_main Cases.copying "in/anim.gif" "webp/anim.webp"
                Demo.config Demo.w0)) =
  [SaveStill "webp/anim.webp" (Demo.with_mode (plain_copy (Demo.gif 3 30)) "RGBA")
     {| kw_lossless := Some true; kw_quality := None; kw_method := Some 6%Z;
        kw_icc_profile := None; kw_exif := None |}].
Proof.
  destruct (@animated_source_saved_as_still Cases.copying Demo.config
              "in/anim.gif" "webp/anim.webp" Demo.w0
              (Demo.src_file 5000 10 (Ok (Demo.gif 3 30))) (Demo.gif 3 30)
              (plain_copy (Demo.gif 3 30)))
    as [_ Hstill];
    [reflexivity | reflexivity | reflexivity | reflexivity | reflexivity
    | reflexivity |].
  apply (Hstill (Demo.with_mode (plain_copy (Demo.gif 3 30)) "RGBA")).
  reflexivity.
Defined.

(** * The thumbnail encode *)

Lemma thumbnail_stops cfg out w e : thumbnail_calls_ok cfg out w (Raise e, w).
Proof.
  exists []. simpl. rewrite app_nil_r.
  split; [reflexivity | split; [discriminate | intros ? []]].
Qed.

Lemma thumbnail_saved `{Codec} cfg out w thumb kw :
  kw_exif kw = None -> kw_icc_profile kw = None ->
  kw_method kw = Some (method cfg) ->
  (kw_lossless kw = Some true /\ kw_quality kw = None) \/
  (kw_lossless kw = None /\ kw_quality kw = Some (quality cfg)) ->
  thumbnail_calls_ok cfg out w (save (SaveStill out thumb kw) w).
Proof.
  intros Hexif Hicc Hmethod Hkind.
  exists [SaveStill out thumb kw]. split; [apply saves_of_save|].
  split; [eauto|]. intros c [<-|[]]. eauto 10.
Qed.

(** From the resize on: the image that reaches [thumbnail] does not matter. *)
Lemma thumbnail_save_policy `{Codec} cfg out w img2 :
  thumbnail_calls_ok cfg out w
    ((thumb ← lift (thumbnail img2 (thumb_size cfg));
      if has_alpha thumb && preserve_alpha cfg then
        thumb ← lift (convert thumb "RGBA");
        save (SaveStill out thumb
                {| kw_lossless := Some true; kw_quality := None;
                   kw_method := Some (method cfg);
                   kw_icc_profile := None; kw_exif := None |})
      else
        thumb ← lift (convert thumb "RGB");
        save (SaveStill out thumb
                {| kw_lossless := None; kw_quality := Some (quality cfg);
                   kw_method := Some (method cfg);
                   kw_icc_profile := None; kw_exif := None |})) w).
Proof.
  rewrite bind_unfold. unfold lift at 1.
  destruct (thumbnail img2 (thumb_size cfg)) as [thumb|e];
    [|apply thumbnail_stops].
  destruct (has_alpha thumb && preserve_alpha cfg);
    rewrite bind_unfold; unfold lift at 1;
    (destruct (convert thumb _) as [t|e]; [|apply thumbnail_stops]);
    apply thumbnail_saved; simpl; auto.
Qed.

(** C10.  Whatever the configuration (in particular [preserve_exif] and
    [preserve_icc]) and whatever the source, the thumbnail block issues at
    most one save call, exactly one when it succeeds; that call is a still
    save to the thumbnail path that carries neither EXIF bytes nor an ICC
    profile, and it is either lossless without any quality or lossy at the
    configured quality. *)
Theorem thumbnail_encode_policy `{Codec} cfg src out w :
  exists calls,
    saves (snd (encode_thumb src out cfg w)) = saves w ++ calls /\
    (fst (encode_thumb src out cfg w) = Ok tt -> exists c, calls = [c]) /\
    forall c, In c calls ->
      exists thumb kw,
        c = SaveStill out thumb kw /\
        kw_exif kw = None /\ kw_icc_profile kw = None /\
        kw_method kw = Some (method cfg) /\
        ((kw_lossless kw = Some true /\ kw_quality kw = None) \/
         (kw_lossless kw = None /\ kw_quality kw = Some (quality cfg))).
Proof.
  change (thumbnail_calls_ok cfg out w (encode_thumb src out cfg w)).
  unfold encode_thumb.
  rewrite bind_unfold. unfold image_open.
  destruct (fs w !! src) as [f|]; [|apply thumbnail_stops].
  destruct (decoded f) as [img0|e]; [|apply thumbnail_stops].
  rewrite bind_unfold. unfold lift at 1.
  destruct (exif_transpose img0) as [img|e]; [|apply thumbnail_stops].
  rewrite bind_unfold.
  destruct (default false (img_is_animated img)).
  - unfold lift at 1. destruct (seek img 0) as [img2|e]; [|apply thumbnail_stops].
    apply thumbnail_save_policy.
  - change ((mret img : M image) w) with (Ok img, w).
    apply thumbnail_save_policy.
Qed.

Lemma thumbnail_encode_policy_witness :
  preserve_exif Demo.config = true /\
  info_exif (Demo.still "RGBA" 2) = Some "Exif-bytes" /\
  exists thumb kw,
    saves (snd (@encode_thumb (Demo.codec false) "in/logo.png"
                  "thumbs/logo_thumb.webp" Demo.config Demo.w0))
      = [SaveStill "thumbs/logo_thumb.webp" thumb kw] /\
    kw_exif kw = None /\ kw_icc_profile kw = None /\
    kw_lossless kw = Some true /\ kw_quality kw = None.
Proof.
  split; [reflexivity|]. split; [reflexivity|].
  destruct (@thumbnail_encode_policy (Demo.codec false) Demo.config
              "in/logo.png" "thumbs/logo_thumb.webp" Demo.w0)
    as (calls & Hsaves & Hone & Hall).
  destruct (Hone eq_refl) as [c ->].
  destruct (Hall c (or_introl eq_refl)) as (thumb & kw & -> & Hexif & Hicc & _ & _).
  exists thumb, kw. split; [exact Hsaves|].
  split; [exact Hexif|]. split; [exact Hicc|].
  vm_compute in Hsaves. injection Hsaves as _ <-. split; reflexivity.
Defined.

(** The thumbnail of an image with alpha, under a configuration that asks
    for EXIF preservation and a quality of 90: lossless, no quality, no
    metadata. *)
Example thumbnail_of_logo :
  saves (snd (@encode_thumb (Demo.codec false) "in/logo.png"
                "thumbs/logo_thumb.webp" Demo.config Demo.w0)) =
  [SaveStill "thumbs/logo_thumb.webp" (Demo.still "RGBA" 2)
     {| kw_lossless := Some true; kw_quality := None; kw_method := Some 6%Z;
        kw_icc_profile := None; kw_exif := None |}].
Proof. reflexivity. Qed.

(** * A thumbnail that fails *)

(** C5.  When the main output is not skipped, the main image is encoded and
    the thumbnail block raises [e], the worker returns a success tuple: [ok]
    is true, the message is the "Converted" message with the text of [e]
    embedded, the thumbnail size is 0 and the total is the main size alone.
    Folded by the result loop, it counts as a success and leaves the failure
    list alone. *)
Theorem thumbnail_failure_is_success `{Codec} cfg src w f w1 e w2 t :
  fs w !! src = Some f ->
  skip_existing cfg && main_is_current src (out_webp_of src cfg) w = false ->
  encode_main src (out_webp_of src cfg) cfg w = (Ok tt, w1) ->
  (forall stats,
     thumb_step src (out_thumb_of src cfg) cfg stats (st_size f) w1
       = (Raise e, w2)) ->
  exists o s,
    process_file_task src cfg w = (o, w2) /\
    out_filename o = Path.basename src /\
    out_ok o = true /\
    out_message o =
      "Converted: " +:+ Path.basename src +:+ " -> "
        +:+ (Path.stem src +:+ ".webp")
        +:+ " (thumbnail failed: " +:+ exn_str e +:+ ")" /\
    out_stats o = Some s /\
    thumb_size_ s = 0%Z /\
    total_size s = webp_size s /\
    success_count (fold_result t src (Returned o)) = (success_count t + 1)%Z /\
    failed (fold_result t src (Returned o)) = failed t.
Proof.
  intros Hsrc Hnoskip Hmain Hthumb.
  eexists _, _. unfold process_file_task.
  rewrite (process_single_file_run _ _ _ _ Hsrc), Hnoskip.
  unfold try_except_cls, try_except, convert_stage.
  rewrite bind_unfold, Hmain.
  rewrite bind_unfold, size_if_exists_run.
  rewrite bind_unfold. unfold thumb_try, try_except. rewrite Hthumb.
  cbv beta iota zeta. unfold mret, M_ret.
  split; [reflexivity|]. simpl. repeat split.
Qed.

Lemma thumbnail_failure_is_success_witness :
  exists o s w2,
    @process_file_task (Demo.codec true) "in/cat.png" Demo.config Demo.w0
      = (o, w2) /\
    out_ok o = true /\
    out_message o
      = "Converted: cat.png -> cat.webp (thumbnail failed: cannot resize)" /\
    out_stats o = Some s /\ thumb_size_ s = 0%Z /\
    success_count (fold_result (start_totals []) "in/cat.png" (Returned o)) = 1%Z /\
    failed (fold_result (start_totals []) "in/cat.png" (Returned o)) = [].
Proof.
  destruct (@thumbnail_failure_is_success (Demo.codec true) Demo.config
              "in/cat.png" Demo.w0
              (Demo.src_file 1000 10 (Ok (Demo.still "RGB" 1)))
              (snd (@encode_main (Demo.codec true) "in/cat.png" "webp/cat.webp"
                      Demo.config Demo.w0))
              (Exn ValueError "cannot resize")
              (snd (@encode_main (Demo.codec true) "in/cat.png" "webp/cat.webp"
                      Demo.config Demo.w0))
              (start_totals []))
    as (o & s & Htask & _ & Hok & Hmsg & Hstats & Hthumb & _ & Hcount & Hfailed);
    [reflexivity | reflexivity | reflexivity | intros stats; reflexivity |].
  eexists o, s, _. split; [exact Htask|]. auto 10.
Defined.

(** * The result loop is order independent *)

Lemma zsum_app {A} (d : A -> Z) (l1 l2 : list A) :
  zsum d (l1 ++ l2) = (zsum d l1 + zsum d l2)%Z.
Proof. induction l1 as [|x l1 IH]; simpl; [reflexivity | rewrite IH; lia]. Qed.

Lemma zsum_permutation {A} (d : A -> Z) (l l' : list A) :
  Permutation l l' -> zsum d l = zsum d l'.
Proof.
  induction 1 as [| x l l' _ IH | x y l | l l' l'' _ IH1 _ IH2]; simpl.
  - reflexivity.
  - rewrite IH. reflexivity.
  - lia.
  - congruence.
Qed.

(** A counter that every round increases by an amount [d] of the future
    alone is, after the loop, its start value plus the sum of the [d]s. *)
Lemma drain_additive (p : Totals -> Z) (d : future_result -> Z) :
  (forall t src r, p (fold_result t src r) = (p t + d r)%Z) ->
  forall rs t, p (drain rs t) = (p t + zsum (fun fr => d (snd fr)) rs)%Z.
Proof.
  intros Hstep rs. unfold drain.
  induction rs as [|[src r] rs IH]; intros t; simpl.
  - lia.
  - rewrite IH, Hstep. simpl. lia.
Qed.

Lemma success_count_step t src r :
  success_count (fold_result t src r) = (success_count t + success_of r)%Z.
Proof.
  destruct r as [o|e]; simpl; [|lia].
  destruct (out_ok o); [destruct (out_stats o)|]; simpl; lia.
Qed.

Lemma total_original_step t src r :
  total_original_size (fold_result t src r)
  = (total_original_size t + size_of original_size r)%Z.
Proof.
  destruct r as [o|e]; simpl; [|lia].
  destruct (out_ok o); [destruct (out_stats o)|]; simpl; lia.
Qed.

Lemma total_webp_step t src r :
  total_webp_size (fold_result t src r)
  = (total_webp_size t + size_of webp_size r)%Z.
Proof.
  destruct r as [o|e]; simpl; [|lia].
  destruct (out_ok o); [destruct (out_stats o)|]; simpl; lia.
Qed.

Lemma total_thumb_step t src r :
  total_thumb_size (fold_result t src r)
  = (total_thumb_size t + size_of thumb_size_ r)%Z.
Proof.
  destruct r as [o|e]; simpl; [|lia].
  destruct (out_ok o); [destruct (out_stats o)|]; simpl; lia.
Qed.

Lemma failed_step t src r :
  failed (fold_result t src r) = failed t ++ failure_of (src, r).
Proof.
  destruct r as [o|e]; unfold failure_of; simpl; [|reflexivity].
  destruct (out_ok o); [destruct (out_stats o)|]; simpl;
    rewrite ?app_nil_r; reflexivity.
Qed.

Lemma failed_drain rs t :
  failed (drain rs t) = failed t ++ flat_map failure_of rs.
Proof.
  unfold drain. revert t.
  induction rs as [|[src r] rs IH]; intros t; simpl.
  - rewrite app_nil_r. reflexivity.
  - rewrite IH, failed_step, <- app_assoc. reflexivity.
Qed.

(** C7.  Folding the same futures in two orders gives the same success
    count, the same number of failures, the same three size totals and
    hence the same derived figures; the two failure lists hold the same
    entries, possibly in a different order. *)
Theorem drain_order_independent rs rs' t :
  Permutation rs rs' ->
  success_count (drain rs t) = success_count (drain rs' t) /\
  length (failed (drain rs t)) = length (failed (drain rs' t)) /\
  total_original_size (drain rs t) = total_original_size (drain rs' t) /\
  total_webp_size (drain rs t) = total_webp_size (drain rs' t) /\
  total_thumb_size (drain rs t) = total_thumb_size (drain rs' t) /\
  overall_compression_ratio (drain rs t) = overall_compression_ratio (drain rs' t) /\
  space_saved (drain rs t) = space_saved (drain rs' t) /\
  Permutation (failed (drain rs t)) (failed (drain rs' t)).
Proof.
  intros Hperm.
  assert (Hfailed : Permutation (failed (drain rs t)) (failed (drain rs' t))).
  { rewrite !failed_drain. apply Permutation_app_head.
    apply Permutation_flat_map, Hperm. }
  assert (Hsucc : success_count (drain rs t) = success_count (drain rs' t)).
  { rewrite !(drain_additive _ _ success_count_step).
    f_equal. apply zsum_permutation, Hperm. }
  assert (Horig : total_original_size (drain rs t)
                  = total_original_size (drain rs' t)).
  { rewrite !(drain_additive _ _ total_original_step).
    f_equal. apply zsum_permutation, Hperm. }
  assert (Hwebp : total_webp_size (drain rs t) = total_webp_size (drain rs' t)).
  { rewrite !(drain_additive _ _ total_webp_step).
    f_equal. apply zsum_permutation, Hperm. }
  assert (Hthumb : total_thumb_size (drain rs t) = total_thumb_size (drain rs' t)).
  { rewrite !(drain_additive _ _ total_thumb_step).
    f_equal. apply zsum_permutation, Hperm. }
  repeat split; try assumption.
  - apply Permutation_length, Hfailed.
  - unfold overall_compression_ratio, total_output_size.
    rewrite Horig, Hwebp, Hthumb. reflexivity.
  - unfold space_saved, total_output_size.
    rewrite Horig, Hwebp, Hthumb. reflexivity.
Qed.

Lemma drain_order_independent_witness :
  let rs := [Demo.converted; Demo.rejected; Demo.crashed] in
  let rs' := [Demo.crashed; Demo.rejected; Demo.converted] in
  let t := start_totals [] in
  success_count (drain rs t) = success_count (drain rs' t) /\
  length (failed (drain rs t)) = length (failed (drain rs' t)) /\
  total_original_size (drain rs t) = total_original_size (drain rs' t) /\
  total_webp_size (drain rs t) = total_webp_size (drain rs' t) /\
  total_thumb_size (drain rs t) = total_thumb_size (drain rs' t) /\
  overall_compression_ratio (drain rs t) = overall_compression_ratio (drain rs' t) /\
  space_saved (drain rs t) = space_saved (drain rs' t) /\
  Permutation (failed (drain rs t)) (failed (drain rs' t)).
Proof.
  apply (drain_order_independent
           [Demo.converted; Demo.rejected; Demo.crashed]
           [Demo.crashed; Demo.rejected; Demo.converted] (start_totals [])).
  apply (Permutation_rev [Demo.converted; Demo.rejected; Demo.crashed]).
Defined.

(** The failure list itself follows the arrival order. *)
Example failed_follows_arrival :
  failed (drain [Demo.rejected; Demo.crashed] (start_totals []))
    = [("b.png", "Skipped (not an image or corrupted): in/b.png");
       ("c.png", "A process in the process pool was terminated abruptly")] /\
  failed (drain [Demo.crashed; Demo.rejected] (start_totals []))
    = [("c.png", "A process in the process pool was terminated abruptly");
       ("b.png", "Skipped (not an image or corrupted): in/b.png")].
Proof. split; reflexivity. Qed.

(** * The figures of the summary *)

Lemma wbind_unfold {A B} (m : W A) (k : A -> W B) l :
  (m ≫= k) l =
  match m l with
  | (Ok a, l') => k a l'
  | (Raise e, l') => (Raise e, l')
  end.
Proof. reflexivity. Qed.

Lemma info_run msg l : info msg l = (Ok tt, l ++ [(INFO, msg)]).
Proof. reflexivity. Qed.

Lemma percent_of_run a b l :
  percent_of a b l =
  if (b =? 0)%Z then (Raise (Exn ZeroDivisionError "division by zero"), l)
  else (Ok (Py.PyFloat (PrimFloat.mul (Py.truediv a b) 100%float)), l).
Proof.
  unfold percent_of, Py.div_ints. destruct (b =? 0)%Z; reflexivity.
Qed.

Ltac summary_steps H :=
  repeat (first [ rewrite wbind_unfold in H
                | rewrite info_run in H
                | rewrite percent_of_run in H ];
          cbv beta iota in H).

(** Run the summary symbolically, splitting on every test it makes. *)
Ltac summary_cases H :=
  repeat (summary_steps H; try discriminate H;
          match type of H with
          | context [if ?c then _ else _] => destruct c eqn:?
          | context [match failed ?t with _ => _ end] => destruct (failed t)
          end).

Ltac find_line :=
  repeat first [ apply in_or_app; right; left; reflexivity
               | apply in_or_app; left ].

Ltac by_tests :=
  repeat match goal with
         | H : (_ <? _)%Z = true |- _ => apply Z.ltb_lt in H
         | H : (_ <? _)%Z = false |- _ => apply Z.ltb_ge in H
         end;
  lia.

(** C9.  The summary reports, whenever it completes: the overall
    compression ratio [total output / total original * 100] (in binary64
    arithmetic; the integer 0 when the original total is not positive), and
    the space saved [total original - total output] under "Space saved"
    when it is positive and its absolute value under "Space used" when it
    is zero or negative.  For totals of 10000 and 4000 bytes the space
    saved is 6000 and the ratio is exactly 40.0. *)
Theorem summary_figures processing_time cfg t l :
  let output := (total_webp_size t + total_thumb_size t)%Z in
  let original := total_original_size t in
  let ratio :=
    if (0 <? original)%Z
    then Py.PyFloat (PrimFloat.mul (Py.truediv output original) 100%float)
    else Py.PyInt 0 in
  overall_compression_ratio t = ratio /\
  space_saved t = (original - output)%Z /\
  (forall r l', summary processing_time cfg t l = (Ok r, l') ->
     In (INFO, "Overall compression ratio: " +:+ Py.format_f 1 ratio +:+ "%") l' /\
     ((0 < original - output)%Z ->
      In (INFO, "Space saved: " +:+ format_file_size (original - output)) l') /\
     ((original - output <= 0)%Z ->
      In (INFO, "Space used: " +:+ format_file_size (Z.abs (original - output))) l')) /\
  (original = 10000%Z -> output = 4000%Z ->
   space_saved t = 6000%Z /\ ratio = Py.PyFloat 40%float).
Proof.
  intros output original ratio.
  assert (Hratio : overall_compression_ratio t = ratio) by reflexivity.
  assert (Hsaved : space_saved t = (original - output)%Z) by reflexivity.
  split; [exact Hratio|]. split; [exact Hsaved|]. split.
  - intros r l' Hrun. unfold summary in Hrun.
    rewrite Hratio, !Hsaved in Hrun.
    unfold mret, W_ret, wraise in Hrun.
    summary_cases Hrun;
      injection Hrun as _ <-;
      (split; [find_line | split; intros; first [by_tests | find_line]]).
  - intros Ho Hout. split; [lia|]. subst ratio. rewrite Ho, Hout. reflexivity.
Qed.

Lemma summary_figures_witness :
  space_saved Demo.totals_saving = 6000%Z /\
  overall_compression_ratio Demo.totals_saving = Py.PyFloat 40%float /\
  let l' := snd (summary 2.5%float Demo.config Demo.totals_saving []) in
  In (INFO, "Overall compression ratio: 40.0%") l' /\
  In (INFO, "Space saved: 5.9 KB") l'.
Proof.
  destruct (summary_figures 2.5%float Demo.config Demo.totals_saving [])
    as (Hratio & _ & Hlog & Hfigures).
  destruct (Hfigures eq_refl eq_refl) as (Hsaved & Hvalue).
  split; [exact Hsaved|]. split; [rewrite Hratio; exact Hvalue|].
  destruct (Hlog _ _ eq_refl) as (Hline & Hsave & _).
  split; [exact Hline | apply Hsave; reflexivity].
Defined.

(** The space saved may be negative: the summary then reports the space
    used and the increase. *)
Example space_increase :
  space_saved Demo.totals_growing = (-500)%Z /\
  let l' := snd (summary 2.5%float Demo.config Demo.totals_growing []) in
  In (INFO, "Space used: 500.0 B") l' /\
  In (INFO, "Space increase: 50.0%") l' /\
  In (INFO, "Overall compression ratio: 150.0%") l'.
Proof. vm_compute. auto 40. Qed.

(** * One outcome per submitted file *)

Lemma run_pool_sources `{Codec} crash cfg completed w :
  map fst (fst (run_pool crash cfg completed w)) = completed.
Proof.
  revert w. induction completed as [|src rest IH]; intros w; simpl.
  - reflexivity.
  - destruct (future_of crash cfg src w) as [r w1].
    specialize (IH w1).
    destruct (run_pool crash cfg rest w1) as [rs w2]. simpl in *.
    rewrite IH. reflexivity.
Qed.

(** Every future is counted once, as a success or as a failure. *)
Lemma outcome_step t src r :
  (success_count (fold_result t src r)
   + Z.of_nat (length (failed (fold_result t src r))))%Z
  = (success_count t + Z.of_nat (length (failed t)) + 1)%Z.
Proof.
  rewrite success_count_step, failed_step, length_app.
  destruct r as [o|e]; unfold failure_of; simpl; [|lia].
  destruct (out_ok o); simpl; lia.
Qed.

Lemma outcome_count rs t :
  (success_count (drain rs t) + Z.of_nat (length (failed (drain rs t))))%Z
  = (success_count t + Z.of_nat (length (failed t)) + Z.of_nat (length rs))%Z.
Proof.
  unfold drain. revert t.
  induction rs as [|[src r] rs IH]; intros t; simpl fold_left.
  - simpl. lia.
  - rewrite IH, outcome_step. simpl length. lia.
Qed.

(** X10.  The loop over the futures of [N] files ends with [N] outcomes,
    whatever the workers did: the number of successes and the number of
    recorded failures add up to the number of listed files. *)
Lemma pool_outcome_count `{Codec} crash cfg completed w log0 :
  let t := drain (fst (run_pool crash cfg completed w)) (start_totals log0) in
  (success_count t + Z.of_nat (length (failed t)))%Z
  = Z.of_nat (length completed).
Proof.
  cbv zeta. rewrite outcome_count. simpl.
  rewrite <- (run_pool_sources crash cfg completed w) at 2.
  rewrite length_map. lia.
Qed.

(** A future that raises is recorded under the base name of its source with
    the text of the exception. *)
Lemma crash_recorded t src e :
  failed (fold_result t src (FutureRaised e))
  = failed t ++ [(Path.basename src, exn_str e)].
Proof. reflexivity. Qed.

(** An exception of [process_single_file] becomes a failure tuple with the
    base name and the text of the exception, and the loop records it. *)
Lemma failure_recorded `{Codec} cfg src w e w' t :
  process_single_file src cfg w = (Raise e, w') ->
  exists o,
    process_file_task src cfg w = (o, w') /\
    failed (fold_result t src (Returned o))
    = failed t ++ [(Path.basename src, exn_str e)].
Proof.
  intros Hrun. unfold process_file_task. rewrite Hrun.
  eexists. split; reflexivity.
Qed.

(** * The summary after a run without a single readable byte *)

(** With an original-size total of zero, the summary raises
    ZeroDivisionError: it divides the space saved by that total. *)
Lemma summary_raises_without_original processing_time cfg t l :
  total_original_size t = 0%Z ->
  exists msg l',
    summary processing_time cfg t l = (Raise (Exn ZeroDivisionError msg), l').
Proof.
  intros Hzero.
  destruct (summary processing_time cfg t l) as [[r|e] l'] eqn:Hrun.
  - exfalso. unfold summary in Hrun. rewrite Hzero in Hrun.
    unfold mret, W_ret, wraise in Hrun.
    cbn [Z.eqb] in Hrun.
    summary_cases Hrun; discriminate Hrun.
  - unfold summary in Hrun. rewrite Hzero in Hrun.
    unfold mret, W_ret, wraise in Hrun.
    cbn [Z.eqb] in Hrun.
    summary_cases Hrun; injection Hrun as <- _; eauto.
Qed.

Lemma failed_future_adds_nothing r :
  success_of r = 0%Z -> size_of original_size r = 0%Z.
Proof.
  destruct r as [o|e]; simpl; [|reflexivity].
  destruct (out_ok o); [discriminate | reflexivity].
Qed.

Lemma all_failed_original rs t :
  Forall (fun fr => success_of (snd fr) = 0%Z) rs ->
  total_original_size (drain rs t) = total_original_size t.
Proof.
  intros Hall. rewrite (drain_additive _ _ total_original_step).
  induction Hall as [|fr rs Hfr _ IH]; simpl; [lia|].
  rewrite (failed_future_adds_nothing _ Hfr). lia.
Qed.

(** A run in which every listed file fails does not reach the end of
    [main]: the summary raises ZeroDivisionError. *)
Lemma main_aborts_when_all_fail `{Codec} cfg completed crash processing_time w :
  completed <> [] ->
  Forall (fun fr => success_of (snd fr) = 0%Z)
         (fst (run_pool crash cfg completed w)) ->
  exists msg,
    fst (fst (main cfg completed crash processing_time w))
    = Raise (Exn ZeroDivisionError msg).
Proof.
  intros Hne Hall. unfold main.
  destruct completed as [|src rest]; [congruence|].
  destruct (run_pool crash cfg (src :: rest) w) as [results w'].
  simpl in Hall.
  destruct (summary_raises_without_original processing_time cfg
              (drain results (start_totals (start_log cfg)))
              (log (drain results (start_totals (start_log cfg)))))
    as (msg & l' & Hsum).
  { rewrite (all_failed_original _ _ Hall). reflexivity. }
  exists msg. rewrite Hsum. reflexivity.
Qed.

(** C6: the code breaks the claim.  The input folder holds one file,
    [in/bad.png], which is not an image.  The worker turns the error into a
    failure tuple and the loop records it (one outcome for one file), but
    the summary then divides by the original-size total, which is 0:
    [main] raises ZeroDivisionError after "Space used: 0 B", before the
    failure list is written. *)
Theorem corrupt_file_aborts_run :
  let '(r, log_records, w') :=
    @main (Demo.codec false) Demo.config ["in/bad.png"] Demo.no_crash
      2.5%float Demo.w0 in
  r = Raise (Exn ZeroDivisionError "division by zero") /\
  In (WARNING, "[bad.png] failed: Skipped (not an image or corrupted): in/bad.png")
     log_records /\
  List.last log_records (INFO, "") = (INFO, "Space used: 0 B") /\
  ~ In (INFO, "Failed files list saved to: failed_files.txt") log_records.
Proof.
  vm_compute. split; [reflexivity|]. split; [auto 10|]. split; [reflexivity|].
  intros Hin. repeat (destruct Hin as [Hin|Hin]; [discriminate Hin|]).
  exact Hin.
Qed.

(** The same folder with a convertible file beside the corrupt one: the run
    completes and the failure list is written. *)
Example mixed_run_completes :
  fst (fst (@main (Demo.codec false) Demo.config ["in/cat.png"; "in/bad.png"]
              Demo.no_crash 2.5%float Demo.w0))
  = Ok (Some ("failed_files.txt",
              "bad.png" +:+ String (ascii_of_nat 9)
                "Skipped (not an image or corrupted): in/bad.png"
                +:+ String (ascii_of_nat 10) "")).
Proof. reflexivity. Qed.

(** * Further properties of the per-file pipeline *)

(** The conversion, once the skip block has fallen through. *)
Lemma conversion_run `{Codec} src cfg w f :
  fs w !! src = Some f ->
  skip_existing cfg && main_is_current src (out_webp_of src cfg) w = false ->
  process_single_file src cfg w =
  match convert_stage src (out_webp_of src cfg) (out_thumb_of src cfg) cfg
          (init_stats (st_size f)) (st_size f) w with
  | (Ok r, w') => (Ok r, w')
  | (Raise e, w') => (Raise (reraised src e), w')
  end.
Proof.
  intros Hsrc Hnoskip.
  rewrite (process_single_file_run _ _ _ _ Hsrc), Hnoskip.
  unfold try_except_cls, try_except, reraised.
  destruct (convert_stage _ _ _ _ _ _ w) as [[r|e] w']; [reflexivity|].
  destruct (decide (exn_cls e = UnidentifiedImageError)); reflexivity.
Qed.

(** The conversion stage after a main encode that succeeded: it cannot
    raise any more. *)
Lemma convert_stage_after_main `{Codec} src cfg original w w1 :
  encode_main src (out_webp_of src cfg) cfg w = (Ok tt, w1) ->
  convert_stage src (out_webp_of src cfg) (out_thumb_of src cfg) cfg
    (init_stats original) original w =
  let wsize := match fs w1 !! out_webp_of src cfg with
               | Some o => st_size o
               | None => 0%Z
               end in
  let stats := set_webp_size (init_stats original) wsize in
  match thumb_step src (out_thumb_of src cfg) cfg stats original w1 with
  | (Ok (Some r), w2) => (Ok r, w2)
  | (Ok None, w2) =>
      let tsize := match fs w2 !! out_thumb_of src cfg with
                   | Some t => st_size t
                   | None => 0%Z
                   end in
      (Ok ("Converted: " +:+ Path.basename src +:+ " -> "
             +:+ (Path.stem src +:+ ".webp") +:+ " | Thumb: "
             +:+ (Path.stem src +:+ "_thumb.webp"),
           set_totals (set_thumb_size stats tsize) (wsize + tsize) original), w2)
  | (Raise e, w2) =>
      (Ok ("Converted: " +:+ Path.basename src +:+ " -> "
             +:+ (Path.stem src +:+ ".webp") +:+ " (thumbnail failed: "
             +:+ exn_str e +:+ ")",
           set_totals stats wsize original), w2)
  end.
Proof.
  intros Hmain. unfold convert_stage.
  rewrite bind_unfold, Hmain.
  rewrite bind_unfold, size_if_exists_run.
  rewrite bind_unfold. unfold thumb_try, try_except. cbv zeta.
  destruct (thumb_step _ _ _ _ _ w1) as [[[r|]|e] w2]; try reflexivity.
  rewrite bind_unfold, size_if_exists_run. reflexivity.
Qed.

(** The thumbnail block on a source that still exists: either the early
    return for a current thumbnail, the world untouched, or the encode. *)
Lemma thumb_step_run `{Codec} src out cfg stats original w f :
  fs w !! src = Some f ->
  thumb_step src out cfg stats original w =
  if skip_existing cfg && main_is_current src out w
  then (Ok (Some ("Converted (webp ready). Thumbnail skipped (up-to-date): "
                    +:+ Path.basename src,
                  let tsize := match fs w !! out with
                               | Some t => st_size t
                               | None => 0%Z
                               end in
                  set_totals (set_thumb_size stats tsize)
                    (webp_size stats + tsize) original)), w)
  else match encode_thumb src out cfg w with
       | (Ok _, w') => (Ok None, w')
       | (Raise e, w') => (Raise e, w')
       end.
Proof.
  intros Hsrc. unfold thumb_step, main_is_current. rewrite Hsrc, bind_unfold.
  destruct (skip_existing cfg); simpl.
  - rewrite (up_to_date_run _ _ _ _ Hsrc).
    destruct (fs w !! out) as [t|] eqn:Hout.
    + destruct (st_mtime f <=? st_mtime t)%Z.
      * rewrite bind_unfold. unfold path_stat. rewrite Hout. reflexivity.
      * rewrite bind_unfold.
        destruct (encode_thumb src out cfg w) as [[[]|e] w']; reflexivity.
    + rewrite bind_unfold.
      destruct (encode_thumb src out cfg w) as [[[]|e] w']; reflexivity.
  - change ((mret false : M bool) w) with (Ok false, w).
    rewrite bind_unfold.
    destruct (encode_thumb src out cfg w) as [[[]|e] w']; reflexivity.
Qed.

Lemma encode_main_undecodable `{Codec} src out cfg w f e :
  fs w !! src = Some f ->
  decoded f = Raise e ->
  encode_main src out cfg w = (Raise e, w).
Proof.
  intros Hsrc Hdec. unfold encode_main.
  rewrite bind_unfold, (image_open_run _ _ _ Hsrc), Hdec. reflexivity.
Qed.



(** X2.  A source that [Image.open] cannot read, its main output not being
    skipped: the worker returns a failure tuple and writes nothing.  For an
    UnidentifiedImageError the message is "Skipped (not an image or
    corrupted): " followed by the full source path; for any other exception
    it is the text of that exception. *)
Theorem unreadable_source_fails `{Codec} cfg src w f e :
  fs w !! src = Some f ->
  decoded f = Raise e ->
  skip_existing cfg && main_is_current src (out_webp_of src cfg) w = false ->
  process_file_task src cfg w =
  ({| out_filename := Path.basename src; out_ok := false;
      out_message :=
        if decide (exn_cls e = UnidentifiedImageError)
        then "Skipped (not an image or corrupted): " +:+ src
        else exn_str e;
      out_stats := None |}, w).
Proof.
  intros Hsrc Hdec Hnoskip. unfold process_file_task.
  rewrite (conversion_run _ _ _ _ Hsrc Hnoskip).
  unfold convert_stage.
  rewrite bind_unfold, (encode_main_undecodable _ _ _ _ _ _ Hsrc Hdec).
  unfold reraised.
  destruct (decide (exn_cls e = UnidentifiedImageError)); reflexivity.
Qed.

Lemma unreadable_source_fails_witness :
  @process_file_task (Demo.codec false) "in/bad.png" Demo.config Demo.w0 =
  ({| out_filename := "bad.png"; out_ok := false;
      out_message := "Skipped (not an image or corrupted): in/bad.png";
      out_stats := None |}, Demo.w0).
Proof.
  apply (@unreadable_source_fails (Demo.codec false) Demo.config "in/bad.png"
           Demo.w0 (Demo.src_file 1000 10 (Raise Demo.not_an_image))
           Demo.not_an_image);
    reflexivity.
Defined.

(** X3.  When the main encode raises, the file fails at once: the
    exception is re-raised (an UnidentifiedImageError as a RuntimeError
    naming the path, any other unchanged), the world is the one the main
    encode left, and the thumbnail block is not run. *)
Theorem failed_main_stops_file `{Codec} cfg src w f e w1 :
  fs w !! src = Some f ->
  skip_existing cfg && main_is_current src (out_webp_of src cfg) w = false ->
  encode_main src (out_webp_of src cfg) cfg w = (Raise e, w1) ->
  process_single_file src cfg w = (Raise (reraised src e), w1) /\
  process_file_task src cfg w =
  ({| out_filename := Path.basename src; out_ok := false;
      out_message := exn_str (reraised src e); out_stats := None |}, w1).
Proof.
  intros Hsrc Hnoskip Hmain.
  assert (Hrun : process_single_file src cfg w = (Raise (reraised src e), w1)).
  { rewrite (conversion_run _ _ _ _ Hsrc Hnoskip). unfold convert_stage.
    rewrite bind_unfold, Hmain. reflexivity. }
  split; [exact Hrun|]. unfold process_file_task. rewrite Hrun. reflexivity.
Qed.

Lemma failed_main_stops_file_witness :
  @process_file_task Cases.full_disk "in/cat.png" Demo.config Demo.w0 =
  ({| out_filename := "cat.png"; out_ok := false;
      out_message := "[Errno 28] No space left on device";
      out_stats := None |},
   snd (@encode_main Cases.full_disk "in/cat.png" "webp/cat.webp"
          Demo.config Demo.w0)) /\
  fs (snd (@encode_main Cases.full_disk "in/cat.png" "webp/cat.webp"
             Demo.config Demo.w0)) !! "thumbs/cat_thumb.webp" = None.
Proof.
  split; [|reflexivity].
  apply (@failed_main_stops_file Cases.full_disk Demo.config "in/cat.png"
           Demo.w0 (Demo.src_file 1000 10 (Ok (Demo.still "RGB" 1)))
           (Exn OSError "[Errno 28] No space left on device"));
    reflexivity.
Defined.

(** X4.  Once the main encode has succeeded the file cannot fail any more:
    whatever the thumbnail block does, [process_single_file] returns, with
    a message that starts with "Converted" and with the size of the main
    output as it is on disk after the encode (0 if it is not there). *)
Theorem converted_file_is_returned `{Codec} cfg src w f w1 :
  fs w !! src = Some f ->
  skip_existing cfg && main_is_current src (out_webp_of src cfg) w = false ->
  encode_main src (out_webp_of src cfg) cfg w = (Ok tt, w1) ->
  exists msg s w2,
    process_single_file src cfg w = (Ok (msg, s), w2) /\
    String.prefix "Converted" msg = true /\
    original_size s = st_size f /\
    webp_size s = match fs w1 !! out_webp_of src cfg with
                  | Some o => st_size o
                  | None => 0%Z
                  end.
Proof.
  intros Hsrc Hnoskip Hmain.
  rewrite (conversion_run _ _ _ _ Hsrc Hnoskip).
  rewrite (convert_stage_after_main _ _ _ _ _ Hmain). cbv zeta.
  destruct (thumb_step _ _ _ _ _ w1) as [[[r|]|e] w2] eqn:Hthumb.
  - destruct r as [msg s]. exists msg, s, w2. split; [reflexivity|].
    unfold thumb_step in Hthumb.
    apply bind_Ok_inv in Hthumb as (current & w3 & _ & Hthumb).
    destruct current.
    + apply bind_Ok_inv in Hthumb as (t & w4 & _ & Hthumb).
      injection Hthumb as <- <- _. repeat split.
    + apply bind_Ok_inv in Hthumb as (u & w4 & _ & Hthumb). discriminate.
  - eexists _, _, w2. split; [reflexivity|]. repeat split.
  - eexists _, _, w2. split; [reflexivity|]. repeat split.
Qed.

Lemma converted_file_is_returned_witness :
  exists msg s w2,
    @process_single_file (Demo.codec true) "in/cat.png" Demo.config Demo.w0
      = (Ok (msg, s), w2) /\
    String.prefix "Converted" msg = true /\
    webp_size s = 300%Z.
Proof.
  destruct (@converted_file_is_returned (Demo.codec true) Demo.config
              "in/cat.png" Demo.w0
              (Demo.src_file 1000 10 (Ok (Demo.still "RGB" 1)))
              (snd (@encode_main (Demo.codec true) "in/cat.png" "webp/cat.webp"
                      Demo.config Demo.w0)))
    as (msg & s & w2 & Hrun & Hprefix & _ & Hwebp);
    [reflexivity | reflexivity | reflexivity |].
  exists msg, s, w2. split; [exact Hrun|]. split; [exact Hprefix|].
  rewrite Hwebp. reflexivity.
Defined.

(** X5.  After a main encode, with skip-existing on and a thumbnail that
    exists and is not older than the source, the thumbnail is not encoded
    again: the file is returned as "Converted (webp ready). Thumbnail
    skipped (up-to-date)", the world is the one the main encode left, and
    the thumbnail size reported is that of the existing file. *)
Theorem current_thumbnail_is_kept `{Codec} cfg src w f w1 f1 t :
  fs w !! src = Some f ->
  skip_existing cfg = true ->
  main_is_current src (out_webp_of src cfg) w = false ->
  encode_main src (out_webp_of src cfg) cfg w = (Ok tt, w1) ->
  fs w1 !! src = Some f1 ->
  fs w1 !! out_thumb_of src cfg = Some t ->
  (st_mtime f1 <= st_mtime t)%Z ->
  exists s,
    process_single_file src cfg w =
      (Ok ("Converted (webp ready). Thumbnail skipped (up-to-date): "
             +:+ Path.basename src, s), w1) /\
    thumb_size_ s = st_size t /\
    total_size s = (webp_size s + st_size t)%Z.
Proof.
  intros Hsrc Hskip Hstale Hmain Hsrc1 Hthumb Hmtime.
  rewrite (conversion_run _ _ _ _ Hsrc); [|rewrite Hskip, Hstale; reflexivity].
  rewrite (convert_stage_after_main _ _ _ _ _ Hmain). cbv zeta.
  rewrite (thumb_step_run _ _ _ _ _ _ _ Hsrc1), Hskip.
  unfold main_is_current. rewrite Hsrc1, Hthumb.
  apply Z.leb_le in Hmtime. rewrite Hmtime. simpl andb. cbv iota.
  eexists. split; [reflexivity|]. split; reflexivity.
Qed.

Lemma current_thumbnail_is_kept_witness :
  exists s,
    @process_single_file (Demo.codec false) "in/cat.png" Demo.config
      Cases.with_cat_thumb =
      (Ok ("Converted (webp ready). Thumbnail skipped (up-to-date): cat.png", s),
       snd (@encode_main (Demo.codec false) "in/cat.png" "webp/cat.webp"
              Demo.config Cases.with_cat_thumb)) /\
    thumb_size_ s = 60%Z /\ webp_size s = 300%Z.
Proof.
  destruct (@current_thumbnail_is_kept (Demo.codec false) Demo.config
              "in/cat.png" Cases.with_cat_thumb
              (Demo.src_file 1000 10 (Ok (Demo.still "RGB" 1)))
              (snd (@encode_main (Demo.codec false) "in/cat.png" "webp/cat.webp"
                      Demo.config Cases.with_cat_thumb))
              (Demo.src_file 1000 10 (Ok (Demo.still "RGB" 1)))
              (Demo.src_file 60 30 (Ok (Demo.still "RGB" 1))))
    as (s & Hrun & Hthumb & Htotal);
    [reflexivity | reflexivity | reflexivity | reflexivity | reflexivity
    | reflexivity | vm_compute; discriminate |].
  exists s. split; [exact Hrun|]. split; [exact Hthumb|].
  vm_compute in Hrun. injection Hrun as <-. reflexivity.
Defined.

(** * What the pipeline writes *)

Section Frame.
Context `{Codec}.
Variable P : string -> Prop.

Lemma touches_pure {A} (m : M A) :
  (forall w, snd (m w) = w) -> touches_only P m.
Proof.
  intros Hpure w. rewrite Hpure. split; [auto|]. split; [auto|].
  exists []. rewrite app_nil_r. split; [reflexivity | constructor].
Qed.

Lemma touches_ret {A} (a : A) : touches_only P (mret a : M A).
Proof. apply touches_pure. reflexivity. Qed.

Lemma touches_raise {A} (e : exn) : touches_only P (raise e : M A).
Proof. apply touches_pure. reflexivity. Qed.

Lemma touches_lift {A} (r : result A) : touches_only P (lift r).
Proof. apply touches_pure. reflexivity. Qed.

Lemma touches_path_exists p : touches_only P (path_exists p).
Proof. apply touches_pure. reflexivity. Qed.

Lemma touches_path_stat p : touches_only P (path_stat p).
Proof.
  apply touches_pure. intros w. unfold path_stat.
  destruct (fs w !! p); reflexivity.
Qed.

Lemma touches_image_open p : touches_only P (image_open p).
Proof.
  apply touches_pure. intros w. unfold image_open.
  destruct (fs w !! p); reflexivity.
Qed.

(** Two steps in a row. *)
Lemma touches_then (w w1 w2 : world) :
  ((forall p, ~ P p -> fs w1 !! p = fs w !! p) /\
   (forall p, is_Some (fs w !! p) -> is_Some (fs w1 !! p)) /\
   exists calls, saves w1 = saves w ++ calls /\
                 Forall (fun c => P (save_path c)) calls) ->
  ((forall p, ~ P p -> fs w2 !! p = fs w1 !! p) /\
   (forall p, is_Some (fs w1 !! p) -> is_Some (fs w2 !! p)) /\
   exists calls, saves w2 = saves w1 ++ calls /\
                 Forall (fun c => P (save_path c)) calls) ->
  (forall p, ~ P p -> fs w2 !! p = fs w !! p) /\
  (forall p, is_Some (fs w !! p) -> is_Some (fs w2 !! p)) /\
  exists calls, saves w2 = saves w ++ calls /\
                Forall (fun c => P (save_path c)) calls.
Proof.
  intros (Hframe1 & Hkeep1 & calls1 & Hsaves1 & Hcalls1)
         (Hframe2 & Hkeep2 & calls2 & Hsaves2 & Hcalls2).
  split; [|split].
  - intros p Hp. rewrite (Hframe2 p Hp). auto.
  - auto.
  - exists (calls1 ++ calls2). split.
    + rewrite Hsaves2, Hsaves1, app_assoc. reflexivity.
    + apply Forall_app. auto.
Qed.

Lemma touches_bind {A B} (m : M A) (k : A -> M B) :
  touches_only P m -> (forall a, touches_only P (k a)) ->
  touches_only P (m ≫= k).
Proof.
  intros Hm Hk w. rewrite bind_unfold.
  specialize (Hm w). destruct (m w) as [[a|e] w1]; simpl in Hm.
  - apply (touches_then w w1); [exact Hm | apply Hk].
  - exact Hm.
Qed.

Lemma touches_try_except {A} (m : M A) (h : exn -> M A) :
  touches_only P m -> (forall e, touches_only P (h e)) ->
  touches_only P (try_except m h).
Proof.
  intros Hm Hh w. unfold try_except.
  specialize (Hm w). destruct (m w) as [[a|e] w1]; simpl in Hm.
  - exact Hm.
  - apply (touches_then w w1); [exact Hm | apply Hh].
Qed.

Lemma touches_try_except_cls {A} cls (m : M A) (h : exn -> M A) :
  touches_only P m -> (forall e, touches_only P (h e)) ->
  touches_only P (try_except_cls cls m h).
Proof.
  intros Hm Hh. apply touches_try_except; [exact Hm|].
  intros e. destruct (decide (exn_cls e = cls)); [apply Hh | apply touches_raise].
Qed.

Lemma touches_save c : P (save_path c) -> touches_only P (save c).
Proof.
  intros Hc w. rewrite save_run.
  destruct (encode c) as [f|e]; cbn [fst snd fs saves].
  - split; [|split].
    + intros p Hp. apply lookup_insert_ne. intros Heq. subst p. contradiction.
    + intros p Hsome. destruct (decide (save_path c = p)) as [Heq|Hne].
      * subst p. rewrite lookup_insert_eq. eauto.
      * rewrite lookup_insert_ne by exact Hne. exact Hsome.
    + exists [c]. split; [reflexivity | repeat constructor; exact Hc].
  - split; [auto|]. split; [auto|].
    exists [c]. split; [reflexivity | repeat constructor; exact Hc].
Qed.

Lemma touches_collect_frames n i img : touches_only P (collect_frames n i img).
Proof.
  apply touches_pure. revert i img.
  induction n as [|n IH]; intros i img w; [reflexivity|].
  cbn [collect_frames]. rewrite bind_unfold. unfold lift at 1.
  destruct (seek img i) as [img_i|e]; [|reflexivity].
  rewrite bind_unfold. unfold lift at 1.
  destruct (convert img_i "RGBA") as [frame|e]; [|reflexivity].
  rewrite bind_unfold. specialize (IH (S i) img_i w).
  destruct (collect_frames n (S i) img_i w) as [[[[frames durations] img_end]|e] w1];
    exact IH.
Qed.

End Frame.

Ltac touches_step :=
  first
    [ apply touches_ret | apply touches_raise | apply touches_lift
    | apply touches_path_exists | apply touches_path_stat
    | apply touches_image_open | apply touches_collect_frames
    | apply touches_save; simpl; solve [auto]
    | apply touches_bind; [|intros ?]
    | apply touches_try_except; [|intros ?]
    | apply touches_try_except_cls; [|intros ?]
    | match goal with
      | |- touches_only _ (if ?c then _ else _) => destruct c
      | |- touches_only _ (match ?x with _ => _ end) => destruct x
      | |- touches_only _ (let '(_, _) := ?x in _) => destruct x
      | |- touches_only _ (let _ := _ in _) => cbv zeta
      end ].

Ltac touches := repeat touches_step.


Lemma touches_encode_thumb `{Codec} (P : string -> Prop) src out cfg :
  P out -> touches_only P (encode_thumb src out cfg).
Proof. intros Hout. unfold encode_thumb. touches. Qed.


(** The frame loop leaves the world as it is. *)
Lemma collect_frames_world `{Codec} n i img w :
  snd (collect_frames n i img w) = w.
Proof.
  revert i img. induction n as [|n IH]; intros i img; [reflexivity|].
  cbn [collect_frames]. rewrite bind_unfold. unfold lift at 1.
  destruct (seek img i) as [img_i|e]; [|reflexivity].
  rewrite bind_unfold. unfold lift at 1.
  destruct (convert img_i "RGBA") as [frame|e]; [|reflexivity].
  rewrite bind_unfold. specialize (IH (S i) img_i).
  destruct (collect_frames n (S i) img_i w) as [[[[frames durations] img_end]|e] w1];
    exact IH.
Qed.

(** A save that returns has put the writer's file at the path of the call. *)
Lemma save_Ok_inv `{Codec} c w w1 :
  save c w = (Ok tt, w1) ->
  exists fw, encode c = Ok fw /\
    w1 = World (<[save_path c := fw]> (fs w)) (saves w ++ [c]).
Proof.
  rewrite save_run. destruct (encode c) as [fw|e]; [|discriminate].
  intros [= <-]. eauto.
Qed.

Lemma retry_Ok_inv `{Codec} c w w1 :
  try_except_cls TypeError (save c) (fun _ => save c) w = (Ok tt, w1) ->
  exists fw, encode c = Ok fw /\
    w1 = World (<[save_path c := fw]> (fs w)) (saves w ++ [c]).
Proof.
  intros Hrun.
  apply try_except_cls_Ok_inv in Hrun as [Hok | (e & w2 & Hfail & _ & Hagain)].
  - apply save_Ok_inv, Hok.
  - rewrite save_run in Hfail. rewrite save_run in Hagain.
    destruct (encode c); discriminate.
Qed.

(** A main encode that returns has issued a save call to the main output
    path as its last call, and the file the writer made for it is there. *)
Lemma encode_main_Ok_inv `{Codec} src out cfg w w1 :
  encode_main src out cfg w = (Ok tt, w1) ->
  exists c fw,
    save_path c = out /\ encode c = Ok fw /\
    w1 = World (<[out := fw]> (fs w)) (saves w ++ [c]).
Proof.
  unfold encode_main. intros Hrun.
  apply bind_Ok_inv in Hrun as (img0 & w2 & Hopen & Hrun).
  assert (w2 = w) as ->.
  { unfold image_open in Hopen. destruct (fs w !! src); congruence. }
  apply bind_Ok_inv in Hrun as (img & w2 & [= _ <-] & Hrun).
  cbv zeta in Hrun.
  destruct (default false (img_is_animated img)
            && animation_format (upper (default "" (img_format img)))).
  - apply bind_Ok_inv in Hrun as ([[frames durations] img_end] & w2 & Hframes & Hrun).
    assert (w2 = w) as ->.
    { pose proof (collect_frames_world (default 1%nat (img_n_frames img)) 0 img w)
        as Hpure.
      rewrite Hframes in Hpure. exact Hpure. }
    destruct frames as [|first rest]; [discriminate|].
    apply retry_Ok_inv in Hrun as (fw & Henc & ->).
    eexists _, fw. split; [|split; [exact Henc | reflexivity]]. reflexivity.
  - destruct (has_alpha img && preserve_alpha cfg);
      apply bind_Ok_inv in Hrun as (out_img & w2 & [= _ <-] & Hrun);
      apply save_Ok_inv in Hrun as (fw & Henc & ->);
      (eexists _, fw; split; [|split; [exact Henc | reflexivity]]; reflexivity).
Qed.

(** A thumbnail block that returns has issued exactly one save call, to the
    thumbnail path, and the file the writer made for it is there. *)
Lemma encode_thumb_Ok_inv `{Codec} src out cfg w w1 :
  encode_thumb src out cfg w = (Ok tt, w1) ->
  exists c ft,
    save_path c = out /\ encode c = Ok ft /\
    w1 = World (<[out := ft]> (fs w)) (saves w ++ [c]).
Proof.
  unfold encode_thumb. intros Hrun.
  apply bind_Ok_inv in Hrun as (img0 & w2 & Hopen & Hrun).
  assert (w2 = w) as ->.
  { unfold image_open in Hopen. destruct (fs w !! src); congruence. }
  apply bind_Ok_inv in Hrun as (img & w2 & [= _ <-] & Hrun).
  apply bind_Ok_inv in Hrun as (img2 & w2 & Hseek & Hrun).
  assert (w2 = w) as ->.
  { destruct (default false (img_is_animated img)); injection Hseek as _ <-;
      reflexivity. }
  apply bind_Ok_inv in Hrun as (thumb & w2 & [= _ <-] & Hrun).
  destruct (has_alpha thumb && preserve_alpha cfg);
    apply bind_Ok_inv in Hrun as (t & w2 & [= _ <-] & Hrun);
    apply save_Ok_inv in Hrun as (ft & Henc & ->);
    (eexists _, ft; split; [|split; [exact Henc | reflexivity]]; reflexivity).
Qed.

(** X6.  A file that is converted in full (main output not skipped, main
    encode and thumbnail encode both returning): the message names the
    source and both outputs, and the sizes reported are those of the two
    files the writer produced, their sum as the total; the thumbnail file
    is on disk afterwards. *)
Theorem full_conversion_reports_written_sizes `{Codec} cfg src w f w1 f1 w2 :
  fs w !! src = Some f ->
  skip_existing cfg && main_is_current src (out_webp_of src cfg) w = false ->
  encode_main src (out_webp_of src cfg) cfg w = (Ok tt, w1) ->
  fs w1 !! src = Some f1 ->
  skip_existing cfg && main_is_current src (out_thumb_of src cfg) w1 = false ->
  encode_thumb src (out_thumb_of src cfg) cfg w1 = (Ok tt, w2) ->
  exists cw fw ct ft,
    encode cw = Ok fw /\ save_path cw = out_webp_of src cfg /\
    encode ct = Ok ft /\ save_path ct = out_thumb_of src cfg /\
    saves w2 = saves w ++ [cw; ct] /\
    fs w2 !! out_thumb_of src cfg = Some ft /\
    process_single_file src cfg w =
    (Ok ("Converted: " +:+ Path.basename src +:+ " -> "
           +:+ (Path.stem src +:+ ".webp") +:+ " | Thumb: "
           +:+ (Path.stem src +:+ "_thumb.webp"),
         {| original_size := st_size f;
            webp_size := st_size fw;
            thumb_size_ := st_size ft;
            total_size := st_size fw + st_size ft;
            compression_ratio :=
              Py.percent_or_zero (st_size fw + st_size ft) (st_size f) |}),
     w2).
Proof.
  intros Hsrc Hnoskip Hmain Hsrc1 Hstale Hthumb.
  rewrite (conversion_run _ _ _ _ Hsrc Hnoskip).
  rewrite (convert_stage_after_main _ _ _ _ _ Hmain). cbv zeta.
  rewrite (thumb_step_run _ _ _ _ _ _ _ Hsrc1), Hstale, Hthumb.
  apply encode_main_Ok_inv in Hmain as (cw & fw & Hpw & Hew & ->).
  apply encode_thumb_Ok_inv in Hthumb as (ct & ft & Hpt & Het & ->).
  exists cw, fw, ct, ft. cbn [fs saves].
  rewrite !lookup_insert_eq.
  repeat (split; [first [assumption | reflexivity
                        | rewrite <- app_assoc; reflexivity]|]).
  reflexivity.
Qed.

Lemma full_conversion_reports_written_sizes_witness :
  exists w2,
    @process_single_file (Demo.codec false) "in/cat.png" Demo.config Demo.w0 =
    (Ok ("Converted: cat.png -> cat.webp | Thumb: cat_thumb.webp",
         {| original_size := 1000; webp_size := 300; thumb_size_ := 50;
            total_size := 350; compression_ratio := Py.PyFloat 35%float |}),
     w2) /\
    (st_size <$> fs w2 !! "thumbs/cat_thumb.webp") = Some 50%Z.
Proof.
  pose (w1 := snd (@encode_main (Demo.codec false) "in/cat.png" "webp/cat.webp"
                     Demo.config Demo.w0)).
  pose (w2 := snd (@encode_thumb (Demo.codec false) "in/cat.png"
                     "thumbs/cat_thumb.webp" Demo.config w1)).
  destruct (@full_conversion_reports_written_sizes (Demo.codec false)
              Demo.config "in/cat.png" Demo.w0
              (Demo.src_file 1000 10 (Ok (Demo.still "RGB" 1))) w1
              (Demo.src_file 1000 10 (Ok (Demo.still "RGB" 1))) w2)
    as (cw & fw & ct & ft & Hew & _ & Het & _ & Hsaves & Hdisk & Hrun);
    [reflexivity | reflexivity | reflexivity | reflexivity | reflexivity
    | reflexivity |].
  exists w2. split.
  - rewrite Hrun. vm_compute in Hsaves. injection Hsaves as <- <-.
    vm_compute in Hew. injection Hew as <-.
    vm_compute in Het. injection Het as <-. reflexivity.
  - reflexivity.
Defined.

Lemma prefix_append (p x : string) : String.prefix p (p +:+ x) = true.
Proof.
  induction p as [|a p IH].
  - destruct x; reflexivity.
  - change (String a p +:+ x) with (String a (p +:+ x)). cbn [String.prefix].
    destruct (ascii_dec a a) as [_|Hne]; [exact IH | contradiction].
Qed.

Lemma thumb_step_no_skip `{Codec} src out cfg stats original w :
  skip_existing cfg = false ->
  thumb_step src out cfg stats original w =
  match encode_thumb src out cfg w with
  | (Ok _, w') => (Ok None, w')
  | (Raise e, w') => (Raise e, w')
  end.
Proof.
  intros Hskip. unfold thumb_step. rewrite Hskip, bind_unfold.
  change ((mret false : M bool) w) with (Ok false, w). cbv beta iota.
  rewrite bind_unfold.
  destruct (encode_thumb src out cfg w) as [[[]|e] w']; reflexivity.
Qed.

(** X7.  With skip-existing off nothing is ever skipped, whatever is on
    disk: a file that is returned has had its main image encoded and
    written in this call (the first save call issued, whose file gives the
    reported main size), and its message is one of the two "Converted: "
    messages, never "Skip" or "Thumbnail skipped". *)
Theorem disabled_skip_always_converts `{Codec} cfg src w msg s w' :
  skip_existing cfg = false ->
  process_single_file src cfg w = (Ok (msg, s), w') ->
  String.prefix "Converted: " msg = true /\
  exists c fw calls,
    save_path c = out_webp_of src cfg /\ encode c = Ok fw /\
    saves w' = saves w ++ c :: calls /\
    webp_size s = st_size fw.
Proof.
  intros Hskip Hrun.
  destruct (fs w !! src) as [f|] eqn:Hsrc.
  2:{ unfold process_single_file in Hrun. rewrite bind_unfold in Hrun.
      unfold path_stat at 1 in Hrun. rewrite Hsrc in Hrun. discriminate. }
  rewrite (conversion_run _ _ _ _ Hsrc) in Hrun by (rewrite Hskip; reflexivity).
  destruct (convert_stage _ _ _ _ _ _ w) as [[r|e] w2] eqn:Hstage;
    [|discriminate].
  injection Hrun as -> ->.
  pose proof Hstage as Hmain. unfold convert_stage in Hmain.
  apply bind_Ok_inv in Hmain as ([] & w1 & Hmain & _).
  rewrite (convert_stage_after_main _ _ _ _ _ Hmain) in Hstage.
  cbv zeta in Hstage.
  rewrite (thumb_step_no_skip _ _ _ _ _ _ Hskip) in Hstage.
  pose proof (touches_encode_thumb (fun _ => True) src (out_thumb_of src cfg)
                cfg I w1) as (_ & _ & calls & Hcalls & _).
  apply encode_main_Ok_inv in Hmain as (c & fw & Hpath & Henc & ->).
  cbn [fs saves] in *. rewrite lookup_insert_eq in Hstage.
  destruct (encode_thumb _ _ _ _) as [[[]|e] w2] eqn:Hthumb;
    injection Hstage as <- <- <-; simpl in Hcalls;
    (split; [apply (prefix_append "Converted: ")|]); exists c, fw, calls;
    rewrite Hcalls, <- app_assoc; auto.
Qed.

Lemma disabled_skip_always_converts_witness :
  exists msg s w',
    @process_single_file (Demo.codec false) "in/old.png" Cases.always_convert
      Demo.w0 = (Ok (msg, s), w') /\
    main_is_current "in/old.png" "webp/old.webp" Demo.w0 = true /\
    String.prefix "Converted: " msg = true /\
    webp_size s = 300%Z.
Proof.
  destruct (@process_single_file (Demo.codec false) "in/old.png"
              Cases.always_convert Demo.w0) as [[[msg s]|e] w'] eqn:Hrun;
    [|vm_compute in Hrun; discriminate Hrun].
  destruct (@disabled_skip_always_converts (Demo.codec false)
              Cases.always_convert "in/old.png" Demo.w0 msg s w' eq_refl Hrun)
    as (Hprefix & c & fw & calls & _ & _ & _ & _).
  exists msg, s, w'. split; [reflexivity|]. split; [reflexivity|].
  split; [exact Hprefix|].
  vm_compute in Hrun. injection Hrun as _ <- _. reflexivity.
Defined.








(** * The listing of image files and the names of the outputs *)

Example gather_ex :
  gather_image_files "in" ["b.PNG"; "notes.txt"; "a.jpeg"; "x.tif"; ".gif"; "c.webp.bak"]
  = ["in/b.PNG"; "in/a.jpeg"; "in/.gif"].
Proof. reflexivity. Qed.

Example os_path_join_ex :
  os_path_join "in/" "a.png" = "in/a.png" /\
  os_path_join "" "a.png" = "a.png" /\
  os_path_join "in" "/abs/a.png" = "/abs/a.png".
Proof. repeat split. Qed.

Lemma gather_from folder listing : forall files,
  fold_left
    (fun files entry =>
       if is_image_name entry
       then files ++ [os_path_join folder entry]
       else files)
    listing files
  = files ++ map (os_path_join folder) (List.filter is_image_name listing).
Proof.
  induction listing as [|entry listing IH]; intros files; simpl.
  - rewrite app_nil_r. reflexivity.
  - rewrite IH.
    destruct (is_image_name entry); simpl.
    + rewrite <- app_assoc. reflexivity.
    + reflexivity.
Qed.

Lemma append_cons c a b : String c a +:+ b = String c (a +:+ b).
Proof. reflexivity. Qed.

Lemma append_nil_l b : "" +:+ b = b.
Proof. reflexivity. Qed.

Lemma has_sep_append a b :
  Path.has_sep (a +:+ b) = Path.has_sep a || Path.has_sep b.
Proof.
  induction a as [|c a IH]; [reflexivity|].
  rewrite append_cons. cbn [Path.has_sep]. rewrite IH, orb_assoc. reflexivity.
Qed.

Lemma basename_no_sep b : Path.has_sep b = false -> Path.basename b = b.
Proof.
  destruct b as [|c b]; [reflexivity|]. cbn [Path.has_sep Path.basename].
  intros Hsep. apply orb_false_iff in Hsep as [Hc Hb]. rewrite Hb, Hc. reflexivity.
Qed.

Lemma basename_after_sep a b :
  Path.has_sep b = false -> Path.basename (a +:+ "/" +:+ b) = b.
Proof.
  intros Hb. induction a as [|c a IH].
  - rewrite append_nil_l, append_cons, append_nil_l.
    cbn [Path.basename]. rewrite Hb. reflexivity.
  - rewrite append_cons. cbn [Path.basename].
    rewrite has_sep_append. rewrite (append_cons "/" "" b).
    cbn [Path.has_sep]. 
    replace (Path.is_sep "/") with true by reflexivity.
    rewrite orb_true_r. exact IH.
Qed.

Lemma endswith_sep_inv a :
  PyStr.endswith a "/" = true -> exists a', a = a' +:+ "/".
Proof.
  induction a as [|c a IH]; [discriminate|].
  cbn [PyStr.endswith]. intros Hend. apply orb_true_iff in Hend as [Heq|Hrest].
  - apply String.eqb_eq in Heq. exists "". exact Heq.
  - destruct (IH Hrest) as [a' ->]. exists (String c a'). reflexivity.
Qed.

Lemma append_assoc (a b c : string) : (a +:+ b) +:+ c = a +:+ (b +:+ c).
Proof.
  induction a as [|x a IH]; [reflexivity|].
  rewrite !append_cons, IH. reflexivity.
Qed.

Lemma basename_os_path_join a b :
  Path.has_sep b = false -> Path.basename (os_path_join a b) = b.
Proof.
  intros Hb. unfold os_path_join, PyStr.startswith.
  assert (Hstart : String.prefix "/" b = false).
  { destruct b as [|c b]; [reflexivity|]. cbn [Path.has_sep] in Hb.
    apply orb_false_iff in Hb as [Hc _]. cbn [String.prefix].
    unfold Path.is_sep in Hc. apply Ascii.eqb_neq in Hc.
    destruct (ascii_dec "/" c) as [Heq|_]; [congruence|reflexivity]. }
  rewrite Hstart.
  destruct (String.eqb a "") eqn:Hempty.
  - apply String.eqb_eq in Hempty. subst a. simpl orb. cbv iota.
    rewrite append_nil_l. apply basename_no_sep, Hb.
  - simpl orb. destruct (PyStr.endswith a "/") eqn:Hend.
    + destruct (endswith_sep_inv _ Hend) as [a' ->].
      rewrite append_assoc. apply basename_after_sep, Hb.
    + apply basename_after_sep, Hb.
Qed.

Lemma length_append (a b : string) :
  String.length (a +:+ b) = (String.length a + String.length b)%nat.
Proof.
  induction a as [|c a IH]; [reflexivity|].
  rewrite append_cons. cbn [String.length]. rewrite IH. reflexivity.
Qed.

Lemma rfind_dot_none s : PyStr.has_dot s = false -> Path.rfind_dot s = None.
Proof.
  induction s as [|c s IH]; [reflexivity|].
  cbn [PyStr.has_dot Path.rfind_dot]. intros Hdot.
  apply orb_false_iff in Hdot as [Hc Hs]. rewrite (IH Hs), Hc. reflexivity.
Qed.

Lemma rfind_dot_suffix n ext :
  PyStr.has_dot ext = false ->
  Path.rfind_dot (n +:+ "." +:+ ext) = Some (String.length n).
Proof.
  intros Hext. induction n as [|c n IH].
  - rewrite append_nil_l, append_cons, append_nil_l. cbn [Path.rfind_dot].
    rewrite (rfind_dot_none _ Hext). reflexivity.
  - rewrite append_cons. cbn [Path.rfind_dot String.length]. rewrite IH.
    reflexivity.
Qed.

Lemma substring_append n x : String.substring 0 (String.length n) (n +:+ x) = n.
Proof.
  induction n as [|c n IH].
  - rewrite append_nil_l. destruct x; reflexivity.
  - rewrite append_cons. cbn [String.length String.substring]. rewrite IH.
    reflexivity.
Qed.

Lemma stem_of_name name ext :
  name <> "" -> ext <> "" ->
  Path.has_sep name = false -> Path.has_sep ext = false ->
  PyStr.has_dot ext = false ->
  Path.stem (name +:+ "." +:+ ext) = name.
Proof.
  intros Hname Hext Hsn Hse Hdot. unfold Path.stem.
  rewrite basename_no_sep.
  2:{ rewrite !has_sep_append, Hsn, Hse. reflexivity. }
  rewrite (rfind_dot_suffix _ _ Hdot), !length_append.
  assert (Hn : (0 < String.length name)%nat) by (destruct name; [congruence | simpl; lia]).
  assert (He : (0 < String.length ext)%nat) by (destruct ext; [congruence | simpl; lia]).
  replace (0 <? String.length name)%nat with true
    by (symmetry; apply Nat.ltb_lt; lia).
  replace (String.length name <? String.length name + (String.length "." + String.length ext) - 1)%nat
    with true by (symmetry; apply Nat.ltb_lt; simpl; lia).
  simpl andb. cbv iota. apply substring_append.
Qed.

Lemma stem_ignores_folder a b :
  Path.has_sep b = false -> Path.stem (os_path_join a b) = Path.stem b.
Proof.
  intros Hb. unfold Path.stem.
  rewrite (basename_os_path_join a b Hb), (basename_no_sep b Hb). reflexivity.
Qed.

(** * Names of the outputs *)

(** X12.  The outputs of a source are named after the folder-free name of
    the source up to its last dot: [name.ext] in any input folder goes to
    [name.webp] in the WebP folder and [name_thumb.webp] in the thumbnail
    folder.  The extension plays no part, so two sources that differ in
    the extension only share both output paths. *)
Theorem output_names cfg folder name ext :
  name <> "" -> ext <> "" ->
  Path.has_sep name = false -> Path.has_sep ext = false ->
  PyStr.has_dot ext = false ->
  let src := os_path_join folder (name +:+ "." +:+ ext) in
  Path.basename src = name +:+ "." +:+ ext /\
  out_webp_of src cfg = output_webp_folder cfg +:+ "/" +:+ name +:+ ".webp" /\
  out_thumb_of src cfg
    = output_thumb_folder cfg +:+ "/" +:+ name +:+ "_thumb.webp".
Proof.
  intros Hname Hext Hsn Hse Hdot src.
  assert (Hentry : Path.has_sep (name +:+ "." +:+ ext) = false)
    by (rewrite !has_sep_append, Hsn, Hse; reflexivity).
  assert (Hstem : Path.stem src = name).
  { unfold src. rewrite (stem_ignores_folder _ _ Hentry).
    apply stem_of_name; assumption. }
  split; [apply basename_os_path_join, Hentry|].
  unfold out_webp_of, out_thumb_of, Path.join. rewrite Hstem. split; reflexivity.
Qed.

Lemma output_names_witness :
  out_webp_of (os_path_join "in" "holiday.2024.JPG") Demo.config
    = "webp/holiday.2024.webp" /\
  out_webp_of (os_path_join "in" "holiday.2024.png") Demo.config
    = "webp/holiday.2024.webp".
Proof.
  split.
  - apply (output_names Demo.config "in" "holiday.2024" "JPG");
      [discriminate | discriminate | reflexivity | reflexivity | reflexivity].
  - apply (output_names Demo.config "in" "holiday.2024" "png");
      [discriminate | discriminate | reflexivity | reflexivity | reflexivity].
Defined.

Lemma lower_upper_ascii c : PyStr.lower_ascii (upper_ascii c) = PyStr.lower_ascii c.
Proof. destruct c as [[] [] [] [] [] [] [] []]; reflexivity. Qed.

Lemma lower_upper s : PyStr.lower (upper s) = PyStr.lower s.
Proof.
  induction s as [|c s IH]; [reflexivity|].
  cbn [upper PyStr.lower]. rewrite lower_upper_ascii, IH. reflexivity.
Qed.

Lemma lower_lower_ascii c : PyStr.lower_ascii (PyStr.lower_ascii c) = PyStr.lower_ascii c.
Proof. destruct c as [[] [] [] [] [] [] [] []]; reflexivity. Qed.

Lemma lower_lower s : PyStr.lower (PyStr.lower s) = PyStr.lower s.
Proof.
  induction s as [|c s IH]; [reflexivity|].
  cbn [PyStr.lower]. rewrite lower_lower_ascii, IH. reflexivity.
Qed.

(** * The listing of the input folder *)

(** X13.  [gather_image_files] returns, in the order of the listing, the
    entries whose name ends in one of the seven extensions, each joined to
    the input folder; the test ignores the case of the name. *)
Theorem gather_image_files_spec folder listing :
  gather_image_files folder listing
    = map (os_path_join folder) (List.filter is_image_name listing) /\
  (forall entry, is_image_name (upper entry) = is_image_name entry) /\
  (forall entry, is_image_name (PyStr.lower entry) = is_image_name entry).
Proof.
  split; [|split].
  - unfold gather_image_files. rewrite gather_from. reflexivity.
  - intros entry. unfold is_image_name. rewrite lower_upper. reflexivity.
  - intros entry. unfold is_image_name. rewrite lower_lower. reflexivity.
Qed.


(** * Reading integers back *)


Lemma digits_of_uint d : all_digits (NilEmpty.string_of_uint d) = true.
Proof. induction d; simpl; auto. Qed.

Lemma digit_not_space c : PyText.is_digit c = true -> PyText.is_space c = false.
Proof. destruct c as [[] [] [] [] [] [] [] []]; try discriminate; reflexivity. Qed.

Lemma digit_not_underscore c :
  PyText.is_digit c = true -> Ascii.eqb c "_"%char = false.
Proof. destruct c as [[] [] [] [] [] [] [] []]; try discriminate; reflexivity. Qed.

Lemma digit_not_comma c :
  PyText.is_digit c = true -> Ascii.eqb c ","%char = false.
Proof. destruct c as [[] [] [] [] [] [] [] []]; try discriminate; reflexivity. Qed.

Lemma lstrip_digits s : all_digits s = true -> PyText.lstrip s = s.
Proof.
  destruct s as [|c s]; [reflexivity|]. simpl. intros Hd.
  apply andb_true_iff in Hd as [Hc _]. rewrite (digit_not_space _ Hc). reflexivity.
Qed.

Lemma rstrip_digits s : all_digits s = true -> PyText.rstrip s = s.
Proof.
  induction s as [|c s IH]; [reflexivity|]. simpl. intros Hd.
  apply andb_true_iff in Hd as [Hc Hs]. rewrite (IH Hs).
  destruct s; [rewrite (digit_not_space _ Hc)|]; reflexivity.
Qed.

Lemma strip_digits s : all_digits s = true -> PyText.strip s = s.
Proof.
  intros Hd. unfold PyText.strip. rewrite (lstrip_digits _ Hd). apply rstrip_digits, Hd.
Qed.

Lemma literal_ok_digits s after :
  all_digits s = true -> PyText.literal_ok s after = (after || negb (String.eqb s "")).
Proof.
  revert after. induction s as [|c s IH]; intros after Hd; simpl.
  - rewrite orb_false_r. reflexivity.
  - simpl in Hd. apply andb_true_iff in Hd as [Hc Hs].
    rewrite Hc, (IH _ Hs). simpl. rewrite orb_true_r. reflexivity.
Qed.

Lemma without_underscores_digits s :
  all_digits s = true -> PyText.without_underscores s = s.
Proof.
  induction s as [|c s IH]; [reflexivity|]. simpl. intros Hd.
  apply andb_true_iff in Hd as [Hc Hs].
  rewrite (digit_not_underscore _ Hc), (IH Hs). reflexivity.
Qed.

Lemma digits_of_uint_zero d : all_digits (NilZero.string_of_uint d) = true.
Proof. destruct d; try apply (digits_of_uint (_ d)); reflexivity. Qed.

Lemma string_of_uint_nonempty d : NilZero.string_of_uint d <> "".
Proof. destruct d; discriminate. Qed.

(** The literal of an unsigned decimal, behind an optional minus sign. *)
Lemma int_of_literal (negative : bool) d :
  d <> Decimal.Nil ->
  (String.length (NilZero.string_of_uint d) <= PyText.max_str_digits)%nat ->
  PyText.int ((if negative then "-" else "") +:+ NilZero.string_of_uint d)
  = Some (Z.of_int (if negative then Decimal.Neg d else Decimal.Pos d)).
Proof.
  intros Hnil Hlen. unfold PyText.int.
  pose proof (digits_of_uint_zero d) as Hd.
  pose proof (string_of_uint_nonempty d) as Hne.
  set (ds := NilZero.string_of_uint d) in *.
  assert (Hstrip : PyText.strip ((if negative then "-" else "") +:+ ds)
                   = (if negative then "-" else "") +:+ ds).
  { destruct negative.
    - change ("-" +:+ ds) with (String "-" ds).
      unfold PyText.strip. cbn [PyText.lstrip]. 
      change (PyText.is_space "-") with false. cbv iota.
      cbn [PyText.rstrip]. rewrite (rstrip_digits _ Hd).
      destruct ds; [congruence | reflexivity].
    - change ("" +:+ ds) with ds. apply strip_digits, Hd. }
  rewrite Hstrip.
  assert (Hbody : (match (if negative then "-" else "") +:+ ds with
                   | String "-" r => (true, r)
                   | String "+" r => (false, r)
                   | _ => (false, (if negative then "-" else "") +:+ ds)
                   end) = (negative, ds)).
  { destruct negative; [reflexivity|]. change ("" +:+ ds) with ds.
    destruct ds as [|c r]; [congruence|]. simpl in Hd.
    apply andb_true_iff in Hd as [Hc _].
    destruct c as [[] [] [] [] [] [] [] []]; try discriminate Hc; reflexivity. }
  rewrite Hbody.
  rewrite (literal_ok_digits _ _ Hd), (without_underscores_digits _ Hd).
  replace (negb (String.eqb ds "")) with true
    by (symmetry; apply negb_true_iff, String.eqb_neq, Hne).
  simpl orb. cbv iota.
  replace (PyText.max_str_digits <? String.length ds)%nat with false
    by (symmetry; apply Nat.ltb_ge, Hlen).
  unfold ds. rewrite (NilZero.usu d Hnil). reflexivity.
Qed.

Lemma int_of_str_int z :
  (String.length (PyText.str_int z) <= PyText.max_str_digits)%nat ->
  PyText.int (PyText.str_int z) = Some z.
Proof.
  intros Hlen. rewrite <- (DecimalZ.of_to z) at 2.
  unfold PyText.str_int in *. destruct z as [|p|p]; cbn [Z.to_int] in *.
  - reflexivity.
  - apply (int_of_literal false); [apply DecimalPos.Unsigned.to_uint_nonnil | exact Hlen].
  - apply (int_of_literal true); [apply DecimalPos.Unsigned.to_uint_nonnil|].
    cbn [NilZero.string_of_int String.length] in Hlen. lia.
Qed.

(** * Blanks, case and commas *)



Lemma lstrip_blank p : all_space p = true -> PyText.lstrip p = "".
Proof.
  induction p as [|c p IH]; [reflexivity|]. simpl. intros Hp.
  apply andb_true_iff in Hp as [Hc Hp]. rewrite Hc. auto.
Qed.

Lemma rstrip_blank p : all_space p = true -> PyText.rstrip p = "".
Proof.
  induction p as [|c p IH]; [reflexivity|]. simpl. intros Hp.
  apply andb_true_iff in Hp as [Hc Hp]. rewrite (IH Hp), Hc. reflexivity.
Qed.

Lemma lstrip_pad p s : all_space p = true -> PyText.lstrip (p +:+ s) = PyText.lstrip s.
Proof.
  induction p as [|c p IH]; [reflexivity|]. rewrite append_cons. simpl. intros Hp.
  apply andb_true_iff in Hp as [Hc Hp]. rewrite Hc. auto.
Qed.

Lemma rstrip_pad s p : all_space p = true -> PyText.rstrip (s +:+ p) = PyText.rstrip s.
Proof.
  intros Hp. induction s as [|c s IH].
  - change ("" +:+ p) with p. rewrite (rstrip_blank _ Hp). reflexivity.
  - rewrite append_cons. cbn [PyText.rstrip]. rewrite IH. reflexivity.
Qed.

Lemma strip_pad p1 s p2 :
  all_space p1 = true -> all_space p2 = true ->
  PyText.strip (p1 +:+ s +:+ p2) = PyText.strip s.
Proof.
  intros Hp1 Hp2. unfold PyText.strip. rewrite (lstrip_pad _ _ Hp1).
  induction s as [|c s IH].
  - change ("" +:+ p2) with p2. rewrite (lstrip_blank _ Hp2). reflexivity.
  - rewrite append_cons. cbn [PyText.lstrip].
    destruct (PyText.is_space c); [exact IH|].
    rewrite <- append_cons. apply rstrip_pad, Hp2.
Qed.

Lemma space_upper c : PyText.is_space (upper_ascii c) = PyText.is_space c.
Proof. destruct c as [[] [] [] [] [] [] [] []]; reflexivity. Qed.

Lemma lstrip_upper s : PyText.lstrip (upper s) = upper (PyText.lstrip s).
Proof.
  induction s as [|c s IH]; [reflexivity|]. cbn [upper PyText.lstrip].
  rewrite space_upper. destruct (PyText.is_space c); [exact IH | reflexivity].
Qed.

Lemma rstrip_upper s : PyText.rstrip (upper s) = upper (PyText.rstrip s).
Proof.
  induction s as [|c s IH]; [reflexivity|]. cbn [upper PyText.rstrip].
  rewrite IH, space_upper.
  destruct (PyText.rstrip s); [destruct (PyText.is_space c)|]; reflexivity.
Qed.

Lemma strip_upper s : PyText.strip (upper s) = upper (PyText.strip s).
Proof. unfold PyText.strip. rewrite lstrip_upper, rstrip_upper. reflexivity. Qed.

(** X14.  A boolean variable is read without regard to case and to blanks
    around it, and every text gives a boolean: the five words 1, true, yes,
    y and on give True, any other text gives False. *)
Theorem parse_bool_ignores_case_and_blanks json_loads text p1 p2 :
  all_space p1 = true -> all_space p2 = true ->
  parse_env_value json_loads (Some (p1 +:+ upper text +:+ p2)) TBool
  = parse_env_value json_loads (Some text) TBool /\
  (exists b, parse_env_value json_loads (Some text) TBool = VBool b) /\
  (parse_env_value json_loads (Some text) TBool = VBool true <->
   In (PyStr.lower (PyText.strip text)) ["1"; "true"; "yes"; "y"; "on"]).
Proof.
  intros Hp1 Hp2. split; [|split; [eexists; reflexivity|]].
  - unfold parse_env_value.
    rewrite (strip_pad _ _ _ Hp1 Hp2), strip_upper, lower_upper. reflexivity.
  - unfold parse_env_value. split.
    + intros Hb.
      assert (Hw : existsb (String.eqb (PyStr.lower (PyText.strip text)))
                     ["1"; "true"; "yes"; "y"; "on"] = true) by congruence.
      apply existsb_exists in Hw as (word & Hin & Heq).
      apply String.eqb_eq in Heq. subst word. exact Hin.
    + intros Hin. f_equal. apply existsb_exists.
      exists (PyStr.lower (PyText.strip text)). split; [exact Hin|].
      apply String.eqb_refl.
Qed.

Lemma parse_bool_ignores_case_and_blanks_witness :
  parse_env_value (fun _ => None) (Some "  YES ") TBool = VBool true /\
  parse_env_value (fun _ => None) (Some "enabled") TBool = VBool false.
Proof.
  split; [|reflexivity].
  destruct (parse_bool_ignores_case_and_blanks (fun _ => None) "yes" "  " " "
              eq_refl eq_refl) as [Hsame _].
  exact Hsame.
Defined.

(** The text of an integer has no blank and no comma in it. *)
Lemma str_int_chars z :
  no_char ","%char (PyText.str_int z) = true /\
  PyText.strip (PyText.str_int z) = PyText.str_int z /\
  PyText.str_int z <> "".
Proof.
  assert (Hdigits : forall d, no_char ","%char (NilZero.string_of_uint d) = true).
  { intros d. pose proof (digits_of_uint_zero d) as Hd.
    induction (NilZero.string_of_uint d) as [|c s IH]; [reflexivity|].
    simpl in *. apply andb_true_iff in Hd as [Hc Hs].
    rewrite (digit_not_comma _ Hc), (IH Hs). reflexivity. }
  unfold PyText.str_int. destruct (Z.to_int z) as [d|d]; cbn [NilZero.string_of_int].
  - split; [apply Hdigits|]. split; [apply strip_digits, digits_of_uint_zero|].
    apply string_of_uint_nonempty.
  - split; [simpl; apply Hdigits|]. split; [|discriminate].
    unfold PyText.strip. cbn [PyText.lstrip].
    change (PyText.is_space "-") with false. cbv iota. cbn [PyText.rstrip].
    rewrite (rstrip_digits _ (digits_of_uint_zero d)).
    pose proof (string_of_uint_nonempty d).
    destruct (NilZero.string_of_uint d); [congruence | reflexivity].
Qed.

Lemma split_no_comma s : no_char ","%char s = true -> PyText.split ","%char s = [s].
Proof.
  induction s as [|c s IH]; [reflexivity|]. simpl. intros Hs.
  apply andb_true_iff in Hs as [Hc Hs]. apply negb_true_iff in Hc.
  rewrite Hc, (IH Hs). reflexivity.
Qed.

Lemma split_comma p rest :
  no_char ","%char p = true ->
  PyText.split ","%char (p +:+ "," +:+ rest) = p :: PyText.split ","%char rest.
Proof.
  induction p as [|c p IH]; [reflexivity|]. rewrite append_cons. simpl. intros Hp.
  apply andb_true_iff in Hp as [Hc Hp]. apply negb_true_iff in Hc.
  rewrite Hc, (IH Hp). reflexivity.
Qed.

Lemma split_join parts :
  parts <> [] ->
  Forall (fun p => no_char ","%char p = true) parts ->
  PyText.split ","%char (PyText.join "," parts) = parts.
Proof.
  intros Hne Hparts. induction Hparts as [|p rest Hp Hrest IH]; [congruence|].
  destruct rest as [|q rest].
  - simpl. apply split_no_comma, Hp.
  - change (PyText.join "," (p :: q :: rest))
      with (p +:+ "," +:+ PyText.join "," (q :: rest)).
    rewrite (split_comma _ _ Hp), IH by discriminate. reflexivity.
Qed.



(** X16.  A list variable written as integers separated by commas, which
    [json.loads] rejects, gives the list of these integers. *)
Theorem parse_list_reads_back json_loads zs :
  Forall (fun z => (String.length (PyText.str_int z) <= PyText.max_str_digits)%nat) zs ->
  json_loads (PyText.join "," (map PyText.str_int zs)) = None ->
  parse_env_value json_loads (Some (PyText.join "," (map PyText.str_int zs))) TList
  = VList (map VInt zs).
Proof.
  intros Hlen Hjson. unfold parse_env_value. rewrite Hjson. f_equal.
  destruct zs as [|z zs]; [reflexivity|].
  rewrite split_join.
  - clear Hjson. induction Hlen as [|y ys Hy _ IH]; [reflexivity|].
    destruct (str_int_chars y) as (_ & Hstrip & Hne).
    cbn [map List.filter]. rewrite Hstrip.
    replace (String.eqb (PyText.str_int y) "") with false
      by (symmetry; apply String.eqb_neq, Hne).
    cbn [negb map]. unfold list_part at 1. rewrite (int_of_str_int _ Hy), IH.
    reflexivity.
  - discriminate.
  - apply Forall_map, Forall_forall. intros y _. apply str_int_chars.
Qed.

Lemma parse_list_reads_back_witness :
  parse_env_value (fun _ => None) (Some "400,300") TList = VList [VInt 400; VInt 300].
Proof.
  apply (parse_list_reads_back (fun _ => None) [400; 300]%Z).
  - repeat (apply List.Forall_cons; [apply Nat.leb_le; vm_compute; reflexivity|]).
    apply List.Forall_nil.
  - reflexivity.
Defined.


(** * The configuration *)

Lemma setdefault_fold_notin defs cfg key :
  ~ In key (map fst defs) ->
  fold_left setdefault defs cfg !! key = cfg !! key.
Proof.
  revert cfg. induction defs as [|[k d] defs IH]; intros cfg Hn; [reflexivity|].
  simpl in *. rewrite IH by tauto.
  assert (Hne : k <> key) by tauto.
  unfold setdefault; simpl.
  destruct (cfg !! k); [reflexivity|apply lookup_insert_ne, Hne].
Qed.

Lemma setdefault_fold_in defs cfg key d :
  List.NoDup (map fst defs) -> In (key, d) defs ->
  fold_left setdefault defs cfg !! key =
    match cfg !! key with Some v => Some v | None => Some d end.
Proof.
  revert cfg. induction defs as [|[k d'] defs IH]; intros cfg Hnd Hin; [destruct Hin|].
  simpl in *. inversion Hnd as [|? ? Hk Hnd']; subst.
  destruct Hin as [Heq|Hin].
  - inversion Heq; subst. rewrite setdefault_fold_notin by exact Hk.
    unfold setdefault; simpl.
    destruct (cfg !! key) eqn:E; [exact E|apply lookup_insert_eq].
  - rewrite IH by assumption.
    assert (Hne : k <> key).
    { intros ->. apply Hk. apply (in_map fst) in Hin. exact Hin. }
    unfold setdefault; simpl.
    destruct (cfg !! k); [reflexivity|].
    rewrite lookup_insert_ne by exact Hne. reflexivity.
Qed.

Section LoadConfigFacts.
Variable json_loads : string -> option value.
Variable env : gmap string string.

Lemma override_fold_notin sch cfg key :
  ~ In key (map fst sch) ->
  fold_left (override json_loads env) sch cfg !! key = cfg !! key.
Proof.
  revert cfg. induction sch as [|[k t] sch IH]; intros cfg Hn; [reflexivity|].
  simpl in *. rewrite IH by tauto.
  assert (Hne : k <> key) by tauto.
  unfold override; simpl.
  destruct (env !! upper k); [apply lookup_insert_ne, Hne|].
  destruct (env !! ("CONVERT_" +:+ upper k)); [apply lookup_insert_ne, Hne|].
  reflexivity.
Qed.

Lemma override_fold_in sch cfg key typ :
  List.NoDup (map fst sch) -> In (key, typ) sch ->
  fold_left (override json_loads env) sch cfg !! key =
    match env !! upper key with
    | Some text => Some (parse_env_value json_loads (Some text) typ)
    | None =>
        match env !! ("CONVERT_" +:+ upper key) with
        | Some text => Some (parse_env_value json_loads (Some text) typ)
        | None => cfg !! key
        end
    end.
Proof.
  revert cfg. induction sch as [|[k t] sch IH]; intros cfg Hnd Hin; [destruct Hin|].
  simpl in *. inversion Hnd as [|? ? Hk Hnd']; subst.
  destruct Hin as [Heq|Hin].
  - inversion Heq; subst. rewrite override_fold_notin by exact Hk.
    unfold override; simpl.
    destruct (env !! upper key); [apply lookup_insert_eq|].
    destruct (env !! ("CONVERT_" +:+ upper key)); [apply lookup_insert_eq|].
    reflexivity.
  - rewrite IH by assumption.
    assert (Hne : k <> key).
    { intros ->. apply Hk. apply (in_map fst) in Hin. exact Hin. }
    destruct (env !! upper key); [reflexivity|].
    destruct (env !! ("CONVERT_" +:+ upper key)); [reflexivity|].
    unfold override; simpl.
    destruct (env !! upper k); [apply lookup_insert_ne, Hne|].
    destruct (env !! ("CONVERT_" +:+ upper k)); [apply lookup_insert_ne, Hne|].
    reflexivity.
Qed.

Lemma normalize_thumb_size_other cfg key :
  key <> "thumb_size" ->
  normalize_thumb_size json_loads cfg !! key = cfg !! key.
Proof.
  intros Hne. unfold normalize_thumb_size.
  destruct (cfg !! "thumb_size") as [[]|]; try reflexivity;
    apply lookup_insert_ne; congruence.
Qed.

Lemma normalize_thumb_size_some cfg :
  is_Some (normalize_thumb_size json_loads cfg !! "thumb_size").
Proof.
  unfold normalize_thumb_size.
  destruct (cfg !! "thumb_size") as [v|] eqn:Hs;
    [destruct v|]; rewrite ?lookup_insert_eq, ?Hs; eauto.
Qed.

End LoadConfigFacts.

Lemma schema_NoDup : List.NoDup (map fst schema).
Proof.
  simpl.
  repeat (apply List.NoDup_cons;
          [simpl; intros Hin; repeat (destruct Hin as [Hin|Hin]; [discriminate Hin|]);
           exact Hin|]).
  apply List.NoDup_nil.
Qed.

Lemma defaults_NoDup : List.NoDup (map fst defaults).
Proof.
  simpl.
  repeat (apply List.NoDup_cons;
          [simpl; intros Hin; repeat (destruct Hin as [Hin|Hin]; [discriminate Hin|]);
           exact Hin|]).
  apply List.NoDup_nil.
Qed.

(** The dictionary after the overrides, key by key. *)
Lemma overrides_lookup json_loads env settings key typ :
  In (key, typ) schema ->
  fold_left (override json_loads env) schema (settings_dict settings) !! key
  = configured json_loads env settings key typ.
Proof.
  intros Hin. unfold configured.
  apply override_fold_in; [exact schema_NoDup|exact Hin].
Qed.

(** A successful [load_config] went through every stage. *)
Lemma load_config_Ok_inv json_loads env settings cfg :
  load_config json_loads env settings = Ok cfg ->
  let cfg1 := fold_left (override json_loads env) schema (settings_dict settings) in
  List.filter (is_missing cfg1) required_keys = [] /\
  cfg = fold_left setdefault defaults (normalize_thumb_size json_loads cfg1).
Proof.
  unfold load_config. intros H.
  assert (Hinit : exists cfg0,
    match settings with
    | NoSettings => Ok ∅
    | SettingsError e => Raise e
    | SettingsValue (VDict items) => Ok (dict_of items)
    | SettingsValue _ =>
        Raise (Exn RuntimeError "settings.json must contain a JSON object.")
    end = Ok cfg0 /\ cfg0 = settings_dict settings).
  { destruct settings as [|[]|]; try discriminate; eexists; split; reflexivity. }
  destruct Hinit as (cfg0 & Hinit & ->). rewrite Hinit in H.
  cbv zeta in *.
  destruct (List.filter _ required_keys); [|discriminate].
  split; [reflexivity|congruence].
Qed.

Lemma load_config_readable json_loads env settings :
  readable settings ->
  load_config json_loads env settings =
    let cfg1 := fold_left (override json_loads env) schema (settings_dict settings) in
    match List.filter (is_missing cfg1) required_keys with
    | (_ :: _) as missing => Raise (incomplete missing)
    | [] => Ok (fold_left setdefault defaults (normalize_thumb_size json_loads cfg1))
    end.
Proof. intros [->|[items ->]]; reflexivity. Qed.

Lemma load_config_Ok_readable json_loads env settings cfg :
  load_config json_loads env settings = Ok cfg -> readable settings.
Proof.
  unfold load_config, readable.
  destruct settings as [|[]|]; try discriminate; eauto.
Qed.

Lemma is_missing_unset json_loads env settings k :
  In k required_keys ->
  is_missing (fold_left (override json_loads env) schema (settings_dict settings)) k
  = unset json_loads env settings k.
Proof.
  intros Hin. unfold is_missing, unset.
  rewrite (overrides_lookup json_loads env settings k TStr); [reflexivity|].
  simpl in Hin. simpl. intuition (subst; auto).
Qed.

Lemma missing_unset json_loads env settings :
  List.filter
    (is_missing (fold_left (override json_loads env) schema (settings_dict settings)))
    required_keys
  = List.filter (unset json_loads env settings) required_keys.
Proof. apply filter_ext_in. intros k Hin. apply is_missing_unset, Hin. Qed.

Lemma default_not_thumb key d : In (key, d) defaults -> key <> "thumb_size".
Proof.
  simpl. intros Hin Heq. subst key.
  repeat (destruct Hin as [Hin|Hin]; [discriminate Hin|]). exact Hin.
Qed.

Lemma load_config_lookup json_loads env settings cfg key :
  load_config json_loads env settings = Ok cfg ->
  key <> "thumb_size" ->
  cfg !! key =
    fold_left setdefault defaults
      (fold_left (override json_loads env) schema (settings_dict settings)) !! key.
Proof.
  intros H Hne. apply load_config_Ok_inv in H as [_ ->].
  destruct (in_dec string_dec key (map fst defaults)) as [Hin|Hout].
  - apply in_map_iff in Hin as ([k d] & Hk & Hin). simpl in Hk. subst k.
    rewrite !(setdefault_fold_in _ _ key d defaults_NoDup Hin).
    rewrite normalize_thumb_size_other by exact Hne. reflexivity.
  - rewrite !setdefault_fold_notin by exact Hout.
    apply normalize_thumb_size_other, Hne.
Qed.

Lemma load_config_Ok_intro json_loads env settings :
  readable settings ->
  (forall k, In k required_keys -> unset json_loads env settings k = false) ->
  exists cfg, load_config json_loads env settings = Ok cfg.
Proof.
  intros Hr Hall. rewrite (load_config_readable _ _ _ Hr). cbv zeta.
  rewrite missing_unset.
  destruct (List.filter _ required_keys) as [|k rest] eqn:Hf; [eauto|].
  assert (Hk : In k (List.filter (unset json_loads env settings) required_keys)).
  { rewrite Hf. left. reflexivity. }
  apply filter_In in Hk as [Hin Hu]. rewrite (Hall k Hin) in Hu. discriminate Hu.
Qed.

Lemma required_lookup json_loads env settings cfg k :
  load_config json_loads env settings = Ok cfg ->
  In k required_keys ->
  cfg !! k = configured json_loads env settings k TStr.
Proof.
  intros H Hin.
  assert (Hs : In (k, TStr) schema) by (simpl in Hin |- *; intuition (subst; auto)).
  assert (Hne : k <> "thumb_size").
  { intros ->. simpl in Hin.
    repeat (destruct Hin as [Hin|Hin]; [discriminate Hin|]). exact Hin. }
  rewrite (load_config_lookup _ _ _ _ k H Hne).
  rewrite setdefault_fold_notin; [apply overrides_lookup, Hs|].
  simpl in Hin |- *. intros Hd.
  repeat (destruct Hin as [<-|Hin];
          [repeat (destruct Hd as [Hd|Hd]; [discriminate Hd|]); exact Hd|]).
  exact Hin.
Qed.

(** The demonstration inputs give a configuration. *)
Lemma demo_config_loads env :
  env !! "INPUT_FOLDER" = None -> env !! "CONVERT_INPUT_FOLDER" = None ->
  env !! "OUTPUT_WEBP_FOLDER" = None -> env !! "CONVERT_OUTPUT_WEBP_FOLDER" = None ->
  env !! "OUTPUT_THUMB_FOLDER" = None -> env !! "CONVERT_OUTPUT_THUMB_FOLDER" = None ->
  exists cfg, load_config ConfigDemo.json_loads env ConfigDemo.settings = Ok cfg.
Proof.
  intros H1 H2 H3 H4 H5 H6. apply load_config_Ok_intro.
  - right. eexists. reflexivity.
  - intros k [<-|[<-|[<-|[]]]]; unfold unset, configured;
      [ change (upper "input_folder") with "INPUT_FOLDER";
        change ("CONVERT_" +:+ "INPUT_FOLDER") with "CONVERT_INPUT_FOLDER";
        rewrite H1, H2
      | change (upper "output_webp_folder") with "OUTPUT_WEBP_FOLDER";
        change ("CONVERT_" +:+ "OUTPUT_WEBP_FOLDER") with "CONVERT_OUTPUT_WEBP_FOLDER";
        rewrite H3, H4
      | change (upper "output_thumb_folder") with "OUTPUT_THUMB_FOLDER";
        change ("CONVERT_" +:+ "OUTPUT_THUMB_FOLDER") with "CONVERT_OUTPUT_THUMB_FOLDER";
        rewrite H5, H6 ];
      vm_compute; reflexivity.
Qed.

(** X17.  An optional setting is taken from the environment variable named as
    the key in upper case, else from the variable with the prefix CONVERT_,
    else from the settings file, whose value is kept as it is (a null stays
    None), and else is the default of the setdefault call. *)
Theorem optional_setting_precedence json_loads env settings cfg key typ d :
  load_config json_loads env settings = Ok cfg ->
  In (key, typ) schema -> In (key, d) defaults ->
  cfg !! key =
    Some (match env !! upper key with
          | Some text => parse_env_value json_loads (Some text) typ
          | None =>
              match env !! ("CONVERT_" +:+ upper key) with
              | Some text => parse_env_value json_loads (Some text) typ
              | None =>
                  match settings_dict settings !! key with
                  | Some v => v
                  | None => d
                  end
              end
          end).
Proof.
  intros H Hs Hd.
  rewrite (load_config_lookup _ _ _ _ key H (default_not_thumb _ _ Hd)).
  rewrite (setdefault_fold_in _ _ key d defaults_NoDup Hd).
  rewrite (overrides_lookup json_loads env settings key typ Hs).
  unfold configured.
  destruct (env !! upper key); [reflexivity|].
  destruct (env !! ("CONVERT_" +:+ upper key)); [reflexivity|].
  destruct (settings_dict settings !! key); reflexivity.
Qed.

Lemma optional_setting_precedence_witness :
  exists cfg,
    load_config ConfigDemo.json_loads ConfigDemo.env ConfigDemo.settings = Ok cfg /\
    cfg !! "quality" = Some (VInt 85) /\
    cfg !! "skip_existing" = Some (VBool false) /\
    cfg !! "method" = Some VNone /\
    cfg !! "max_workers" = Some (VInt 4).
Proof.
  destruct (demo_config_loads (ConfigDemo.env)) as [cfg E];
    try (vm_compute; reflexivity).
  exists cfg. split; [exact E|].
  pose proof (fun key typ d =>
    optional_setting_precedence ConfigDemo.json_loads ConfigDemo.env
      ConfigDemo.settings cfg key typ d E) as P.
  rewrite (P "quality" TInt (VInt 100)) by (simpl; tauto).
  rewrite (P "skip_existing" TBool (VBool true)) by (simpl; tauto).
  rewrite (P "method" TInt (VInt 6)) by (simpl; tauto).
  rewrite (P "max_workers" TInt (VInt 4)) by (simpl; tauto).
  repeat split; vm_compute; reflexivity.
Defined.

(** X18.  load_config returns a configuration exactly when the settings file is
    absent or holds a JSON object and each of the three folder keys has a
    value other than None and the empty text, from a variable or the file;
    the configuration then holds that value as it was found. *)
Theorem load_config_succeeds_iff json_loads env settings :
  ((exists cfg, load_config json_loads env settings = Ok cfg) <->
  readable settings /\
  forall k, In k required_keys -> unset json_loads env settings k = false) /\
  (forall cfg k, load_config json_loads env settings = Ok cfg ->
     In k required_keys ->
     cfg !! k = configured json_loads env settings k TStr).
Proof.
  split; [|intros cfg k H Hin; apply (required_lookup _ _ _ _ _ H Hin)].
  split.
  - intros [cfg H]. split; [exact (load_config_Ok_readable _ _ _ _ H)|].
    apply load_config_Ok_inv in H as [Hmiss _].
    rewrite missing_unset in Hmiss.
    intros k Hin.
    destruct (unset json_loads env settings k) eqn:Hu; [|reflexivity].
    assert (Hk : In k (List.filter (unset json_loads env settings) required_keys)).
    { apply filter_In. auto. }
    rewrite Hmiss in Hk. destruct Hk.
  - intros [Hr Hall]. apply load_config_Ok_intro; assumption.
Qed.

(** X19.  With a readable settings file, the error for an incomplete
    configuration names exactly the folder keys left without a value, in
    the order input, webp output, thumbnail output. *)
Theorem missing_keys_reported json_loads env settings k :
  readable settings ->
  In k required_keys -> unset json_loads env settings k = true ->
  load_config json_loads env settings =
    Raise (incomplete (List.filter (unset json_loads env settings) required_keys)) /\
  In k (List.filter (unset json_loads env settings) required_keys).
Proof.
  intros Hr Hin Hu.
  assert (Hk : In k (List.filter (unset json_loads env settings) required_keys)).
  { apply filter_In. auto. }
  split; [|exact Hk].
  rewrite (load_config_readable _ _ _ Hr). cbv zeta. rewrite missing_unset.
  destruct (List.filter _ required_keys); [destruct Hk|reflexivity].
Qed.

Lemma missing_keys_reported_witness :
  load_config ConfigDemo.json_loads (<["INPUT_FOLDER" := "in"]> ∅) NoSettings =
    Raise (Exn FileNotFoundError
             "Configuration incomplete. Missing keys: ['output_webp_folder', 'output_thumb_folder']. Provide these keys in 'settings.json' or via environment variables.").
Proof.
  destruct (missing_keys_reported ConfigDemo.json_loads
              (<["INPUT_FOLDER" := "in"]> ∅) NoSettings "output_webp_folder")
    as [H _].
  - left. reflexivity.
  - simpl. tauto.
  - vm_compute. reflexivity.
  - rewrite H. vm_compute. reflexivity.
Defined.

Lemma thumb_size_lookup json_loads env settings cfg :
  load_config json_loads env settings = Ok cfg ->
  cfg !! "thumb_size" =
    normalize_thumb_size json_loads
      (fold_left (override json_loads env) schema (settings_dict settings))
      !! "thumb_size".
Proof.
  intros H. apply load_config_Ok_inv in H as [_ ->].
  apply setdefault_fold_notin. simpl. intros Hin.
  repeat (destruct Hin as [Hin|Hin]; [discriminate Hin|]). exact Hin.
Qed.

Lemma thumb_size_configured json_loads env settings :
  fold_left (override json_loads env) schema (settings_dict settings) !! "thumb_size"
  = configured json_loads env settings "thumb_size" TList.
Proof. apply overrides_lookup. simpl. tauto. Qed.

(** X20.  A thumbnail size given in the environment: a text json.loads reads as
    a list gives the tuple of its items; a text json.loads reads as anything
    else (a number, say) gives the tuple of the text's characters; a text
    json.loads rejects gives the tuple of its comma-separated parts. *)
Theorem thumb_size_from_environment json_loads env settings cfg text :
  load_config json_loads env settings = Ok cfg ->
  env !! "THUMB_SIZE" = Some text ->
  cfg !! "thumb_size" =
    Some (VTuple
            match json_loads text with
            | Some (VList l) => l
            | Some _ => map VStr (PyText.chars text)
            | None =>
                map list_part
                  (List.filter (fun p => negb (String.eqb p ""))
                     (map PyText.strip (PyText.split ","%char text)))
            end).
Proof.
  intros H Henv. rewrite (thumb_size_lookup _ _ _ _ H).
  unfold normalize_thumb_size. rewrite thumb_size_configured.
  unfold configured. change (upper "thumb_size") with "THUMB_SIZE".
  rewrite Henv. unfold parse_env_value at 1.
  destruct (json_loads text) as [[]|] eqn:Hj;
    try (rewrite lookup_insert_eq; unfold parse_env_value; rewrite Hj; reflexivity);
    rewrite lookup_insert_eq; reflexivity.
Qed.

Lemma thumb_size_from_environment_witness :
  exists cfg,
    load_config ConfigDemo.json_loads (<["THUMB_SIZE" := "400"]> ConfigDemo.env)
      ConfigDemo.settings = Ok cfg /\
    cfg !! "thumb_size" = Some (VTuple [VStr "4"; VStr "0"; VStr "0"]).
Proof.
  destruct (demo_config_loads (<["THUMB_SIZE" := "400"]> ConfigDemo.env)) as [cfg E];
    try (vm_compute; reflexivity).
  exists cfg. split; [exact E|].
  rewrite (thumb_size_from_environment _ _ _ _ "400" E); reflexivity.
Defined.

(** X21.  Without a variable for it, the thumbnail size is (400, 400) when the
    settings file has no entry, the tuple of the entry's items when it is a
    list, the parsed text when it is a text, and the entry itself, not
    checked, when it is anything else. *)
Theorem thumb_size_from_settings json_loads env settings cfg :
  load_config json_loads env settings = Ok cfg ->
  env !! "THUMB_SIZE" = None -> env !! "CONVERT_THUMB_SIZE" = None ->
  cfg !! "thumb_size" =
    Some match settings_dict settings !! "thumb_size" with
         | None => VTuple [VInt 400; VInt 400]
         | Some (VList l) => VTuple l
         | Some (VStr ts) => tuple_of (parse_env_value json_loads (Some ts) TList)
         | Some v => v
         end.
Proof.
  intros H He Hp. rewrite (thumb_size_lookup _ _ _ _ H).
  unfold normalize_thumb_size. rewrite thumb_size_configured.
  unfold configured. change (upper "thumb_size") with "THUMB_SIZE".
  change ("CONVERT_" +:+ "THUMB_SIZE") with "CONVERT_THUMB_SIZE".
  rewrite He, Hp.
  destruct (settings_dict settings !! "thumb_size") as [[]|] eqn:Hs;
    try (rewrite lookup_insert_eq; reflexivity);
    rewrite thumb_size_configured; unfold configured;
    change (upper "thumb_size") with "THUMB_SIZE";
    change ("CONVERT_" +:+ "THUMB_SIZE") with "CONVERT_THUMB_SIZE";
    rewrite He, Hp; exact Hs.
Qed.

Lemma thumb_size_from_settings_witness :
  exists cfg,
    load_config ConfigDemo.json_loads ConfigDemo.env ConfigDemo.settings = Ok cfg /\
    cfg !! "thumb_size" = Some (VTuple [VInt 320; VInt 240]).
Proof.
  destruct (demo_config_loads (ConfigDemo.env)) as [cfg E];
    try (vm_compute; reflexivity).
  exists cfg. split; [exact E|].
  rewrite (thumb_size_from_settings _ _ _ _ E); reflexivity.
Defined.

(** X22.  A configuration that load_config returns has an entry for every key
    of the schema, and keeps the entries of the settings file under other
    keys unchanged. *)
Theorem config_has_every_key json_loads env settings cfg :
  load_config json_loads env settings = Ok cfg ->
  (forall key typ, In (key, typ) schema -> is_Some (cfg !! key)) /\
  (forall key, ~ In key (map fst schema) ->
               cfg !! key = settings_dict settings !! key).
Proof.
  intros H. split.
  - intros key typ Hin.
    destruct (string_dec key "thumb_size") as [->|Hne].
    + rewrite (thumb_size_lookup _ _ _ _ H). apply normalize_thumb_size_some.
    + destruct (in_dec string_dec key (map fst defaults)) as [Hd|Hd].
      * apply in_map_iff in Hd as ([k d] & Hk & Hd). simpl in Hk. subst k.
        rewrite (load_config_lookup _ _ _ _ key H Hne).
        rewrite (setdefault_fold_in _ _ key d defaults_NoDup Hd).
        destruct (_ !! key); eauto.
      * assert (Hreq : In key required_keys).
        { simpl in Hin, Hd |- *.
          repeat (destruct Hin as [Hin|Hin];
                  [inversion Hin; subst; tauto|]). destruct Hin. }
        pose proof H as H'. apply load_config_Ok_inv in H' as [Hmiss _].
        rewrite (load_config_lookup _ _ _ _ key H Hne).
        rewrite setdefault_fold_notin by exact Hd.
        destruct (_ !! key) eqn:Hk; [eauto|].
        assert (Hk' : In key (List.filter
                   (is_missing (fold_left (override json_loads env) schema
                                  (settings_dict settings))) required_keys)).
        { apply filter_In. split; [exact Hreq|]. unfold is_missing.
          rewrite Hk. reflexivity. }
        rewrite Hmiss in Hk'. destruct Hk'.
  - intros key Hout.
    assert (Hne : key <> "thumb_size").
    { intros ->. apply Hout. simpl. tauto. }
    rewrite (load_config_lookup _ _ _ _ key H Hne).
    rewrite setdefault_fold_notin.
    + apply override_fold_notin, Hout.
    + intros Hd. apply Hout. simpl in Hd |- *.
      repeat (destruct Hd as [Hd|Hd]; [subst key; tauto|]). destruct Hd.
Qed.

Lemma config_has_every_key_witness :
  exists cfg,
    load_config ConfigDemo.json_loads ConfigDemo.env ConfigDemo.settings = Ok cfg /\
    is_Some (cfg !! "failed_list_file") /\
    cfg !! "watermark" = Some (VStr "logo.png").
Proof.
  destruct (demo_config_loads (ConfigDemo.env)) as [cfg E];
    try (vm_compute; reflexivity).
  exists cfg. split; [exact E|].
  destruct (config_has_every_key _ _ _ _ E) as [Hall Hother].
  split.
  - apply (Hall "failed_list_file" TStr). simpl. tauto.
  - rewrite Hother; [reflexivity|].
    simpl. intros Hin.
    repeat (destruct Hin as [Hin|Hin]; [discriminate Hin|]). exact Hin.
Defined.
